(** * Order-flow gateway: depth synchronisation engine and proxy server

    A shallow embedding of
    - [OrderBookEngine] (replayBuffer, processEvent, initSnapshot,
      addToBuffer, applyUpdate, getBook / sortBook),
    - the book validity gate of the socket hook,
    - the proxy server's [fetchBinanceDepth], the [/api/depth/:symbol]
      handler and the per-frame filter of the upstream message handler,
    with the properties of the specification stated over these definitions.

    Conventions.  Update ids, timestamps and back-off delays are JavaScript
    numbers that only ever hold integers: they are [Z].  Prices and
    quantities arrive as decimal strings and are read with [parseFloat]:
    they are exact rationals ([Q]) or [NaN].  A [Map<string, number>] is an
    insertion-ordered association list, because [sortBook] sorts the keys in
    iteration order with a stable sort.  The server's symbol-indexed maps
    are [gmap string _] and a client's subscription set is a [gset string].
    Logging is not modelled. *)

From Stdlib Require Import ZArith QArith Lia Lqa Bool Ascii String List Sorted.
From stdpp Require Import base gmap strings list sorting.

Open Scope Z_scope.

(* ===================================================================== *)
(** ** JavaScript numbers and the two parsing builtins                   *)
(* ===================================================================== *)

Module Js.

(** A [number] holding a decimal value, or [NaN]. *)
Inductive number : Type :=
| NaN
| Num (q : Q).

(** [x === 0] *)
Definition isZero (x : number) : bool :=
  match x with
  | NaN => false
  | Num q => Qeq_bool q 0
  end.

(** [x > 0] *)
Definition gtZero (x : number) : bool :=
  match x with
  | NaN => false
  | Num q => negb (Qle_bool q 0)
  end.

(** [x < y] *)
Definition lt (x y : number) : bool :=
  match x, y with
  | Num p, Num q => negb (Qle_bool q p)
  | _, _ => false
  end.

(** [x - y] *)
Definition sub (x y : number) : number :=
  match x, y with
  | Num p, Num q => Num (p - q)
  | _, _ => NaN
  end.

(** [x + y] *)
Definition add (x y : number) : number :=
  match x, y with
  | Num p, Num q => Num (p + q)
  | _, _ => NaN
  end.

(** [x || 0]: a falsy number ([0] or [NaN]) is replaced by [0]. *)
Definition orZero (x : number) : number :=
  match x with
  | NaN => Num 0
  | Num q => if Qeq_bool q 0 then Num 0 else Num q
  end.

(** The proposition "[x] is a number strictly greater than 0". *)
Definition positive (x : number) : Prop :=
  match x with
  | NaN => False
  | Num q => (0 < q)%Q
  end.

Definition digit (c : ascii) : option Z :=
  let n := Z.of_nat (nat_of_ascii c) in
  if (48 <=? n) && (n <=? 57) then Some (n - 48) else None.

Definition isSpace (c : ascii) : bool :=
  let n := nat_of_ascii c in
  (Nat.eqb n 32 || Nat.eqb n 9 || Nat.eqb n 10 || Nat.eqb n 13)%bool.

Fixpoint skipSpaces (cs : list ascii) : list ascii :=
  match cs with
  | c :: cs' => if isSpace c then skipSpaces cs' else cs
  | [] => []
  end.

(** Longest prefix of decimal digits: its value on top of [acc], how many
    digits were read, and the rest of the input. *)
Fixpoint digits (cs : list ascii) (acc : Z) (n : nat) : Z * nat * list ascii :=
  match cs with
  | c :: cs' =>
      match digit c with
      | Some d => digits cs' (10 * acc + d) (S n)
      | None => (acc, n, cs)
      end
  | [] => (acc, n, [])
  end.

(** Optional sign: [(negative?, rest)]. *)
Definition sign (cs : list ascii) : bool * list ascii :=
  match cs with
  | c :: cs' =>
      if Nat.eqb (nat_of_ascii c) 45 then (true, cs')
      else if Nat.eqb (nat_of_ascii c) 43 then (false, cs')
      else (false, cs)
  | [] => (false, [])
  end.

(** [parseInt(s)] in radix 10: leading white space, an optional sign and
    the longest run of decimal digits; [None] is [NaN].  (The hexadecimal
    prefix is not modelled.) *)
Definition parseInt (s : string) : option Z :=
  let '(neg, cs) := sign (skipSpaces (list_ascii_of_string s)) in
  let '(v, n, _) := digits cs 0 0%nat in
  match n with
  | O => None
  | S _ => Some (if neg then - v else v)
  end.

(** [parseFloat(s)] on decimal literals: leading white space, an optional
    sign, integer digits and an optional fraction; [NaN] when no digit is
    read.  (Exponents and [Infinity] are not modelled; the exchange sends
    plain decimal strings.) *)
Definition parseFloat (s : string) : number :=
  let '(neg, cs) := sign (skipSpaces (list_ascii_of_string s)) in
  let '(ip, ni, rest) := digits cs 0 0%nat in
  let '(fp, nf) :=
    match rest with
    | c :: rest' =>
        if Nat.eqb (nat_of_ascii c) 46
        then let '(f, k, _) := digits rest' 0 0%nat in (f, k)
        else (0, O)
    | [] => (0, O)
    end in
  match (ni + nf)%nat with
  | O => NaN
  | S _ =>
      let q := Qred (inject_Z ip + Qmake fp (Pos.of_nat (10 ^ nf)))%Q in
      Num (if neg then Qred (- q) else q)
  end.

(** [String.prototype.toUpperCase] on ASCII letters. *)
Definition upperChar (c : ascii) : ascii :=
  let n := nat_of_ascii c in
  if (Nat.leb 97 n && Nat.leb n 122)%bool then ascii_of_nat (n - 32) else c.

Definition toUpperCase (s : string) : string :=
  string_of_list_ascii (map upperChar (list_ascii_of_string s)).

(** [arr.slice(0, n)]; a negative [n] counts from the end. *)
Definition slice0 {A} (n : Z) (l : list A) : list A :=
  if 0 <=? n then firstn (Z.to_nat n) l
  else firstn (length l - Z.to_nat (- n)) l.

End Js.

(* ===================================================================== *)
(** ** The order-book engine                                             *)
(* ===================================================================== *)

Module Engine.

(** A price level on the wire: [[price, quantity]], both decimal strings. *)
Definition Level : Type := string * string.

(** [DepthEvent] of types.ts, restricted to the fields the engine reads. *)
Record DepthEvent : Type := mkEvent {
  ev_U : Z;            (* first update id *)
  ev_u : Z;            (* final update id *)
  ev_b : list Level;   (* bids *)
  ev_a : list Level    (* asks *)
}.

(** [Map<string, number>]: entries in insertion order, keys unique. *)
Definition Book : Type := list (string * Js.number).

(** [book.set(k, v)]: an existing key keeps its place, a new key goes last. *)
Fixpoint map_set (k : string) (v : Js.number) (m : Book) : Book :=
  match m with
  | [] => [(k, v)]
  | (k', v') :: m' =>
      if String.eqb k k' then (k, v) :: m' else (k', v') :: map_set k v m'
  end.

(** [book.delete(k)] *)
Fixpoint map_delete (k : string) (m : Book) : Book :=
  match m with
  | [] => []
  | (k', v') :: m' =>
      if String.eqb k k' then map_delete k m' else (k', v') :: map_delete k m'
  end.

(** [book.get(k)] *)
Fixpoint map_get (k : string) (m : Book) : option Js.number :=
  match m with
  | [] => None
  | (k', v') :: m' => if String.eqb k k' then Some v' else map_get k m'
  end.

(** [applyUpdate(updates, book)]: a parsed quantity of 0 deletes the level,
    any other value is stored. *)
Fixpoint applyUpdate (updates : list Level) (book : Book) : Book :=
  match updates with
  | [] => book
  | (p, q) :: rest =>
      let qty := Js.parseFloat q in
      applyUpdate rest
        (if Js.isZero qty then map_delete p book else map_set p qty book)
  end.

(** The fields of [OrderBookEngine].  [retryScheduled] stands for
    [retryTimeoutId !== null]; [symbol] and [instanceId] play no role. *)
Record t : Type := mk {
  bids : Book;
  asks : Book;
  lastUpdateId : Z;
  isSynced : bool;
  buffer : list DepthEvent;
  resyncInFlight : bool;
  lastResyncAt : Z;
  needsResync : bool;
  degraded : bool;
  snapshotBackoffMs : Z;
  retryScheduled : bool
}.

Definition maxBackoffMs : Z := 30000.
Definition minBackoffMs : Z := 2000.
Definition MAX_BUFFER_SIZE : Z := 2000.

(** [new OrderBookEngine(symbol)] *)
Definition constructor : t :=
  {| bids := []; asks := []; lastUpdateId := 0; isSynced := false;
     buffer := []; resyncInFlight := false; lastResyncAt := 0;
     needsResync := true; degraded := false;
     snapshotBackoffMs := minBackoffMs; retryScheduled := false |}.

Definition set_buffer (b : list DepthEvent) (s : t) : t :=
  mk (bids s) (asks s) (lastUpdateId s) (isSynced s) b (resyncInFlight s)
     (lastResyncAt s) (needsResync s) (degraded s) (snapshotBackoffMs s)
     (retryScheduled s).

Definition set_needsResync (b : bool) (s : t) : t :=
  mk (bids s) (asks s) (lastUpdateId s) (isSynced s) (buffer s)
     (resyncInFlight s) (lastResyncAt s) b (degraded s) (snapshotBackoffMs s)
     (retryScheduled s).

Definition set_resyncInFlight (b : bool) (s : t) : t :=
  mk (bids s) (asks s) (lastUpdateId s) (isSynced s) (buffer s) b
     (lastResyncAt s) (needsResync s) (degraded s) (snapshotBackoffMs s)
     (retryScheduled s).

Definition set_lastResyncAt (n : Z) (s : t) : t :=
  mk (bids s) (asks s) (lastUpdateId s) (isSynced s) (buffer s)
     (resyncInFlight s) n (needsResync s) (degraded s) (snapshotBackoffMs s)
     (retryScheduled s).

Definition set_isSynced (b : bool) (s : t) : t :=
  mk (bids s) (asks s) (lastUpdateId s) b (buffer s) (resyncInFlight s)
     (lastResyncAt s) (needsResync s) (degraded s) (snapshotBackoffMs s)
     (retryScheduled s).

Definition set_degraded (b : bool) (s : t) : t :=
  mk (bids s) (asks s) (lastUpdateId s) (isSynced s) (buffer s)
     (resyncInFlight s) (lastResyncAt s) (needsResync s) b
     (snapshotBackoffMs s) (retryScheduled s).

Definition set_snapshotBackoffMs (n : Z) (s : t) : t :=
  mk (bids s) (asks s) (lastUpdateId s) (isSynced s) (buffer s)
     (resyncInFlight s) (lastResyncAt s) (needsResync s) (degraded s) n
     (retryScheduled s).

Definition set_retryScheduled (b : bool) (s : t) : t :=
  mk (bids s) (asks s) (lastUpdateId s) (isSynced s) (buffer s)
     (resyncInFlight s) (lastResyncAt s) (needsResync s) (degraded s)
     (snapshotBackoffMs s) b.

Definition set_book (bs az : Book) (n : Z) (s : t) : t :=
  mk bs az n (isSynced s) (buffer s) (resyncInFlight s) (lastResyncAt s)
     (needsResync s) (degraded s) (snapshotBackoffMs s) (retryScheduled s).

(** The three statements that apply one diff:
    [applyUpdate(e.b, bids); applyUpdate(e.a, asks); lastUpdateId = e.u]. *)
Definition applyEvent (e : DepthEvent) (s : t) : t :=
  set_book (applyUpdate (ev_b e) (bids s)) (applyUpdate (ev_a e) (asks s))
           (ev_u e) s.

(** [addToBuffer(event, now)].  The [typeof] guards hold for every
    [DepthEvent].  A full buffer first loses its oldest
    [floor(MAX_BUFFER_SIZE * 0.1)] events. *)
Definition addToBuffer (e : DepthEvent) (s : t) : t :=
  let buf :=
    if MAX_BUFFER_SIZE <=? Z.of_nat (length (buffer s))
    then drop (Z.to_nat (MAX_BUFFER_SIZE / 10)) (buffer s)
    else buffer s in
  set_buffer (buf ++ [e]) s.

(** [this.buffer.sort((a, b) => a.u - b.u)]: the sort is stable, so the
    result is the one an insertion sort builds. *)
Fixpoint insert_by_u (e : DepthEvent) (l : list DepthEvent) : list DepthEvent :=
  match l with
  | [] => [e]
  | x :: xs =>
      if ev_u x <? ev_u e then x :: insert_by_u e xs else e :: x :: xs
  end.

Definition sort_by_u (l : list DepthEvent) : list DepthEvent :=
  foldr insert_by_u [] l.

(** The first loop of [replayBuffer]: index of the first event that is not
    older than the snapshot and straddles [lastUpdateId + 1]. *)
Fixpoint findStart (last : Z) (i : nat) (l : list DepthEvent) : option nat :=
  match l with
  | [] => None
  | e :: rest =>
      if ev_u e <=? last then findStart last (S i) rest
      else if (ev_U e <=? last + 1) && (last + 1 <=? ev_u e) then Some i
      else findStart last (S i) rest
  end.

(** The second loop of [replayBuffer], over the events from [startIdx] on. *)
Fixpoint replayLoop (evs : list DepthEvent) (s : t) : bool * t :=
  match evs with
  | [] => (true, set_buffer [] s)
  | e :: rest =>
      if lastUpdateId s + 1 <? ev_U e then (false, set_buffer [] s)
      else if lastUpdateId s <? ev_u e then replayLoop rest (applyEvent e s)
      else replayLoop rest s
  end.

(** [replayBuffer()] *)
Definition replayBuffer (s : t) : bool * t :=
  match buffer s with
  | [] => (true, s)
  | _ :: _ =>
      let sorted := sort_by_u (buffer s) in
      match findStart (lastUpdateId s) 0 sorted with
      | None => (false, set_buffer [] s)
      | Some startIdx => replayLoop (drop startIdx sorted) (set_buffer sorted s)
      end
  end.

(** [scheduleRetry()]: arms the retry timer unless one is already armed. *)
Definition scheduleRetry (s : t) : t := set_retryScheduled true s.

(** The back-off step shared by every failure branch of [initSnapshot]. *)
Definition bumpBackoff (s : t) : t :=
  set_snapshotBackoffMs (Z.min (snapshotBackoffMs s * 2) maxBackoffMs) s.

(** The body of the REST reply as [initSnapshot] and the server read it: a
    field is [None] when it is missing or of the wrong type; a [null] body
    is the record with no field. *)
Record Payload : Type := mkPayload {
  p_lastUpdateId : option Z;
  p_bids : option (list Level);
  p_asks : option (list Level)
}.

(** [!data || !data.lastUpdateId || !Array.isArray(data.bids) ||
    !Array.isArray(data.asks)] negated: the fields of a well-formed body.
    An id of 0 is falsy. *)
Definition validPayload (d : Payload) : option (Z * list Level * list Level) :=
  match p_lastUpdateId d, p_bids d, p_asks d with
  | Some n, Some bs, Some az => if n =? 0 then None else Some (n, bs, az)
  | _, _, _ => None
  end.

(** How the awaited [fetch] of [initSnapshot] ends. *)
Inductive Outcome : Type :=
| HttpError (status : Z)       (* !response.ok *)
| JsonError                    (* response.json() throws *)
| Body (d : Payload)           (* response.ok with a parsed body *)
| NetworkError.                (* fetch throws *)

(** [levels.forEach(l => book.set(l[0], parseFloat(l[1])))] on an empty map. *)
Definition loadLevels (levels : list Level) : Book :=
  fold_left (fun m l => map_set (fst l) (Js.parseFloat (snd l)) m) levels [].

(** [initSnapshot()] up to its [await]: nothing happens when a snapshot is
    already in flight. *)
Definition initSnapshot_start (now : Z) (s : t) : t :=
  if resyncInFlight s then s
  else set_lastResyncAt now (set_resyncInFlight true s).

(** [initSnapshot()] from the [await] to the end of [finally]. *)
Definition initSnapshot_finish (o : Outcome) (s : t) : t :=
  let s' :=
    match o with
    | HttpError _ => scheduleRetry (bumpBackoff s)
    | JsonError => scheduleRetry (bumpBackoff s)
    | Body d =>
        match validPayload d with
        | None => scheduleRetry (bumpBackoff s)
        | Some (n, bs, az) =>
            let '(ok, s1) := replayBuffer (set_book (loadLevels bs) (loadLevels az) n s) in
            if ok
            then set_degraded false
                   (set_snapshotBackoffMs minBackoffMs
                      (set_needsResync false (set_isSynced true s1)))
            else scheduleRetry (set_needsResync true (set_isSynced false s1))
        end
    | NetworkError => scheduleRetry (set_needsResync true (bumpBackoff s))
    end in
  set_resyncInFlight false s'.

(** A whole [initSnapshot()] call during which no diff arrives. *)
Definition initSnapshot (now : Z) (o : Outcome) (s : t) : t :=
  if resyncInFlight s then s
  else initSnapshot_finish o (initSnapshot_start now s).

(** The retry timer armed by [scheduleRetry] fires. *)
Definition retryTimer_start (now : Z) (s : t) : t :=
  initSnapshot_start now (set_retryScheduled false s).

(** [processEvent(event)].  The shape test of the seeding branch
    ([typeof event.u === 'number'], [b] and [a] arrays) holds for every
    [DepthEvent]. *)
Definition processEvent (e : DepthEvent) (s0 : t) : t :=
  let s :=
    if isSynced s0 && negb (resyncInFlight s0)
       && (0 <? Z.of_nat (length (buffer s0)))
    then set_buffer [] s0 else s0 in
  if resyncInFlight s then addToBuffer e s
  else if negb (isSynced s) then
    if negb (degraded s)
    then set_needsResync true
           (set_isSynced true (set_degraded true (applyEvent e s)))
    else set_needsResync true (addToBuffer e s)
  else if ev_u e <=? lastUpdateId s then s
  else if lastUpdateId s + 1 <? ev_U e
  then set_needsResync true (addToBuffer e s)
  else applyEvent e s.

End Engine.

(* ===================================================================== *)
(** ** Book reads and the validity gate of the socket hook               *)
(* ===================================================================== *)

Module Hook.

Record OrderBookLevel : Type := mkLevel {
  price : Js.number;
  size : Js.number;
  total : Js.number
}.

(** The comparator of [sortBook]: [priceA - priceB] for asks,
    [priceB - priceA] for bids. *)
Definition compareKeys (isAsk : bool) (a b : string) : Js.number :=
  let priceA := Js.parseFloat a in
  let priceB := Js.parseFloat b in
  if isAsk then Js.sub priceA priceB else Js.sub priceB priceA.

(** Stable sort of the keys: [k] moves behind [x] only when the comparator
    is positive. *)
Fixpoint insert_key (isAsk : bool) (k : string) (l : list string) : list string :=
  match l with
  | [] => [k]
  | x :: xs =>
      if Js.gtZero (compareKeys isAsk k x) then x :: insert_key isAsk k xs
      else k :: x :: xs
  end.

Definition sortKeys (isAsk : bool) (l : list string) : list string :=
  foldr (insert_key isAsk) [] l.

(** The [for] loop of [sortBook]. *)
Fixpoint collect (book : Engine.Book) (limit : Z) (keys : list string)
    (cumulative : Js.number) (result : list OrderBookLevel) : list OrderBookLevel :=
  match keys with
  | [] => result
  | key :: ks =>
      if limit <=? Z.of_nat (length result) then result
      else
        let sz := Js.orZero (default Js.NaN (Engine.map_get key book)) in
        if Js.gtZero sz
        then collect book limit ks (Js.add cumulative sz)
               (result ++ [mkLevel (Js.parseFloat key) sz (Js.add cumulative sz)])
        else collect book limit ks cumulative result
  end.

Definition sortBook (book : Engine.Book) (isAsk : bool) (limit : Z) : list OrderBookLevel :=
  collect book limit (sortKeys isAsk (map fst book)) (Js.Num 0) [].

(** [engine.getBook(depth)] *)
Definition getBook (depth : Z) (e : Engine.t) : list OrderBookLevel * list OrderBookLevel :=
  (sortBook (Engine.bids e) false depth, sortBook (Engine.asks e) true depth).

(** [levels[0]?.price || 0] *)
Definition bestPrice (levels : list OrderBookLevel) : Js.number :=
  match levels with
  | [] => Js.Num 0
  | l :: _ => Js.orZero (price l)
  end.

(** The book validity gate computed on every tick from [getBook(20)]. *)
Definition bookIsValid (e : Engine.t) : bool :=
  let '(bs, az) := getBook 20 e in
  let bestBid := bestPrice bs in
  let bestAsk := bestPrice az in
  Engine.isSynced e
  && negb (Engine.resyncInFlight e)
  && (0 <? Z.of_nat (length bs))
  && (0 <? Z.of_nat (length az))
  && Js.gtZero bestBid
  && Js.gtZero bestAsk
  && Js.lt bestBid bestAsk.

End Hook.

(* ===================================================================== *)
(** ** The proxy server                                                  *)
(* ===================================================================== *)

Module Server.

Record DepthCache : Type := mkCache {
  lastUpdateId : Z;
  bids : list Engine.Level;
  asks : list Engine.Level;
  cachedAt : Z
}.

Record RateLimitState : Type := mkRate {
  lastRequest : Z;
  backoffMs : Z
}.

Definition MIN_BACKOFF_MS : Z := 2000.
Definition MAX_BACKOFF_MS : Z := 30000.
Definition RATE_LIMIT_INTERVAL_MS : Z := 500.
Definition CACHE_TTL_MS : Z := 5000.

(** The two module-level maps. *)
Record State : Type := mkState {
  depthCache : gmap string DepthCache;
  rateLimitState : gmap string RateLimitState
}.

Definition initial : State := mkState ∅ ∅.

(** [rateLimitState.get(symbol) || { lastRequest: 0, backoffMs: MIN_BACKOFF_MS }] *)
Definition rateOf (symbol : string) (st : State) : RateLimitState :=
  default (mkRate 0 MIN_BACKOFF_MS) (rateLimitState st !! symbol).

(** How the awaited [fetch] of [fetchBinanceDepth] ends. *)
Inductive FetchResult : Type :=
| NotOk (status : Z)              (* !response.ok *)
| Json (d : Engine.Payload)       (* response.ok with a parsed body *)
| Throws.                         (* fetch or response.json() throws *)

(** [fetchBinanceDepth(symbol, limit)]; [now] is [Date.now()]. *)
Definition fetchBinanceDepth (symbol : string) (limit : Z) (now : Z)
    (r : FetchResult) (st : State) : option DepthCache * State :=
  match r with
  | NotOk status =>
      if (status =? 429) || (status =? 418) then
        let state := rateOf symbol st in
        let state' := mkRate (lastRequest state)
                        (Z.min (backoffMs state * 2) MAX_BACKOFF_MS) in
        (None, mkState (depthCache st) (<[symbol := state']> (rateLimitState st)))
      else (None, st)
  | Json d =>
      match Engine.validPayload d with
      | None => (None, st)
      | Some (n, bs, az) =>
          let state' := mkRate now MIN_BACKOFF_MS in
          let cached := mkCache n bs az now in
          (Some cached,
           mkState (<[symbol := cached]> (depthCache st))
                   (<[symbol := state']> (rateLimitState st)))
      end
  | Throws => (None, st)
  end.

Inductive Response : Type :=
| Ok200 (lastUpdateId : Z) (bids asks : list Engine.Level) (cachedAt : Z)
        (source : string)
| Err503 (symbol : string) (retryAfter : Z).

(** [Math.min(parseInt(req.query.limit) || 1000, 1000)]: a missing,
    unparsable or zero limit becomes 1000. *)
Definition limitOf (query : option string) : Z :=
  let parsed :=
    match query with
    | Some q => Js.parseInt q
    | None => None
    end in
  let n :=
    match parsed with
    | Some v => if v =? 0 then 1000 else v
    | None => 1000
    end in
  Z.min n 1000.

Definition reply (c : DepthCache) (limit : Z) (source : string) : Response :=
  Ok200 (lastUpdateId c) (Js.slice0 limit (bids c)) (Js.slice0 limit (asks c))
        (cachedAt c) source.

(** The [GET /api/depth/:symbol] handler.  [r] is how the upstream fetch
    ends when the handler gets as far as making it.  The [state] object of
    the handler is the one stored in the map when the symbol has a record,
    so [retryAfter] sees the update made by the fetch; otherwise it is the
    fresh default. *)
Definition depthHandler (symbolParam : string) (limitQuery : option string)
    (now : Z) (r : FetchResult) (st : State) : Response * State :=
  let symbol := Js.toUpperCase symbolParam in
  let limit := limitOf limitQuery in
  let state := rateOf symbol st in
  let timeSinceLastRequest := now - lastRequest state in
  let cached := depthCache st !! symbol in
  let throttled :=
    (timeSinceLastRequest <? RATE_LIMIT_INTERVAL_MS)
    || (timeSinceLastRequest <? backoffMs state) in
  let served :=
    if throttled then
      match cached with
      | Some c => if now - cachedAt c <? CACHE_TTL_MS * 2 then Some c else None
      | None => None
      end
    else None in
  match served with
  | Some c => (reply c limit "cache", st)
  | None =>
      let '(freshData, st') := fetchBinanceDepth symbol limit now r st in
      match freshData with
      | Some f => (reply f limit "binance", st')
      | None =>
          match cached with
          | Some c => (reply c limit "cache", st')
          | None =>
              let retryAfter :=
                match rateLimitState st !! symbol with
                | Some _ => backoffMs (rateOf symbol st')
                | None => backoffMs state
                end in
              (Err503 symbol retryAfter, st')
          end
      end
  end.

(** A downstream client as the upstream message handler sees it:
    [readyState === WebSocket.OPEN] and [clientSymbols.get(client)]. *)
Record Client : Type := mkClient {
  isOpen : bool;
  subscriptions : option (gset string)
}.

(** An upstream frame as the handler reads it: [JSON.parse] throws, or it
    yields a message whose [msg?.data?.s] is a string or is absent (a value
    of another type belongs to no subscription set and counts as absent). *)
Inductive Frame : Type :=
| NotJson
| Message (s : option string).

(** The truthiness test [symbol && ...] on the extracted symbol. *)
Definition truthy (s : string) : bool := negb (String.eqb s EmptyString).

(** The body of [wsClients.forEach] in the upstream message handler:
    whether [client.send(msgStr)] is called for this client. *)
Definition forwards (f : Frame) (c : Client) : bool :=
  if isOpen c then
    match f with
    | NotJson => true
    | Message sym =>
        match subscriptions c, sym with
        | Some clientSubs, Some symbol =>
            truthy symbol && bool_decide (symbol ∈ clientSubs)
        | _, _ => false
        end
    end
  else false.

(** The clients that receive the frame. *)
Definition broadcast (f : Frame) (clients : list Client) : list Client :=
  List.filter (forwards f) clients.

End Server.

(* ===================================================================== *)
(** ** Histories of an engine and of the server                          *)
(* ===================================================================== *)

Module History.

Import Engine.

(** What can happen to one engine.  [initSnapshot] is asynchronous: it runs
    to its [await] ([Start]), diffs may arrive while the fetch is pending,
    and the fetch later settles ([Finish]).  [Timer] is the retry timer of
    [scheduleRetry] firing. *)
Inductive Op : Type :=
| Event (e : DepthEvent)
| Start (now : Z)
| Finish (o : Outcome)
| Timer (now : Z).

(** A policy says which operations the environment of the engine may
    perform in which state. *)
Definition Policy : Type := Op -> t -> bool.

(** Whatever the policy, a fetch can only settle while it is pending and
    the retry timer only fires when it is armed. *)
Definition enabled (allow : Policy) (op : Op) (s : t) : bool :=
  allow op s
  && match op with
     | Event _ => true
     | Start _ => true
     | Finish _ => resyncInFlight s
     | Timer _ => retryScheduled s
     end.

Definition exec (op : Op) (s : t) : t :=
  match op with
  | Event e => processEvent e s
  | Start now => initSnapshot_start now s
  | Finish o => initSnapshot_finish o s
  | Timer now => retryTimer_start now s
  end.

Fixpoint run (allow : Policy) (ops : list Op) (s : t) : option t :=
  match ops with
  | [] => Some s
  | op :: rest =>
      if enabled allow op s then run allow rest (exec op s) else None
  end.

(** No restriction: snapshots are started at any time and diffs arrive at
    any time. *)
Definition anytime : Policy := fun _ _ => true.

(** No diff arrives while a snapshot is pending on an engine that did not
    need one ([needsResync] false). *)
Definition calm : Policy :=
  fun op s =>
    match op with
    | Event _ => negb (resyncInFlight s) || needsResync s
    | _ => true
    end.

Definition reachable (allow : Policy) (s : t) : Prop :=
  exists ops, run allow ops constructor = Some s.

(** The id the replay loop holds after going through [evs] without
    failing: the largest final update id seen so far. *)
Definition runningId (last : Z) (evs : list DepthEvent) : Z :=
  fold_left (fun cur e => Z.max cur (ev_u e)) evs last.

(** The replay of the buffered events, written from the description of the
    loop: a gap ([U] beyond the current id + 1) fails the replay, an event
    that does not go beyond the current id is passed over, any other event
    is applied. *)
Inductive ReplayStep (s : t) (e : DepthEvent) : option t -> Prop :=
| replay_gap :
    lastUpdateId s + 1 < ev_U e -> ReplayStep s e None
| replay_skip :
    ev_U e <= lastUpdateId s + 1 -> ev_u e <= lastUpdateId s ->
    ReplayStep s e (Some s)
| replay_apply :
    ev_U e <= lastUpdateId s + 1 -> lastUpdateId s < ev_u e ->
    ReplayStep s e (Some (applyEvent e s)).

Inductive Replay : list DepthEvent -> t -> bool * t -> Prop :=
| replay_done s :
    Replay [] s (true, set_buffer [] s)
| replay_fail s e rest :
    ReplayStep s e None -> Replay (e :: rest) s (false, set_buffer [] s)
| replay_next s e rest s1 r :
    ReplayStep s e (Some s1) -> Replay rest s1 r -> Replay (e :: rest) s r.

(** Requests served by the proxy. *)
Inductive Request : Type :=
| Fetch (symbol : string) (limit : Z) (now : Z) (r : Server.FetchResult)
| Depth (symbolParam : string) (limitQuery : option string) (now : Z)
        (r : Server.FetchResult).

Definition serve (st : Server.State) (rq : Request) : Server.State :=
  match rq with
  | Fetch symbol limit now r => snd (Server.fetchBinanceDepth symbol limit now r st)
  | Depth symbolParam limitQuery now r =>
      snd (Server.depthHandler symbolParam limitQuery now r st)
  end.

Definition served (st : Server.State) : Prop :=
  exists rqs, fold_left serve rqs Server.initial = st.

(** [MIN_BACKOFF <= b <= MAX_BACKOFF] *)
Definition inBounds (b : Z) : Prop := 2000 <= b <= 30000.

(** Every stored rate-limit record is within the bounds. *)
Definition recordsInBounds (st : Server.State) : Prop :=
  forall symbol rs,
    Server.rateLimitState st !! symbol = Some rs ->
    inBounds (Server.backoffMs rs).

(** Every entry of a book satisfies [P]. *)
Definition allEntries (P : Js.number -> Prop) (book : Book) : Prop :=
  Forall (fun kv => P (snd kv)) book.

(** The failures of the upstream fetch other than a rate limit: a
    non-success status other than 429 and 418, a malformed body, or an
    exception. *)
Definition plainFailure (r : Server.FetchResult) : Prop :=
  match r with
  | Server.NotOk status => status <> 429 /\ status <> 418
  | Server.Json d => validPayload d = None
  | Server.Throws => True
  end.

(** The symbol taken from a frame, when there is one. *)
Definition extractSymbol (f : Server.Frame) : option string :=
  match f with
  | Server.NotJson => None
  | Server.Message s => s
  end.

End History.

(* ===================================================================== *)
(** ** The upstream connection and the client registry of the proxy      *)
(* ===================================================================== *)

Module Upstream.

(** [WebSocket.readyState] *)
Inductive ReadyState : Type := CONNECTING | OPEN | CLOSING | CLOSED.

(** [binanceWsState] *)
Inductive WsState : Type := disconnected | connecting | connected.

(** What a handler does to sockets and timers, in order.  The jitter added
    to a reconnect delay is random and is left out. *)
Inductive Effect : Type :=
| CloseUpstream                          (* binanceWs.close() *)
| OpenUpstream (symbols : gset string)   (* new WebSocket(buildStreamUrl(allSymbols)) *)
| ScheduleReconnect (delay : Z)          (* setTimeout(connectToBinance, delay + jitter) *)
| SendConnected (symbols : gset string). (* ws.send({type: 'connected', ...}) *)

(** The module-level state of the WebSocket proxy.  Downstream sockets are
    told apart by a number.  [binanceWs] is the ready state of the socket
    the variable refers to, [None] for [null]. *)
Record t : Type := mk {
  binanceWs : option ReadyState;
  binanceWsState : WsState;
  reconnectAttempts : Z;
  wsClients : gset nat;
  clientSymbols : gmap nat (gset string);
  currentStreamSymbols : gset string
}.

Definition MAX_RECONNECT_DELAY : Z := 30000.

Definition initial : t := mk None disconnected 0 ∅ ∅ ∅.

(** The union built at the top of [connectToBinance]. *)
Definition allSymbols (u : t) : gset string :=
  ⋃ (snd <$> map_to_list (clientSymbols u)).

(** [allSymbols.size !== currentStreamSymbols.size ||
    Array.from(allSymbols).some(s => !currentStreamSymbols.has(s))] *)
Definition symbolsChanged (all current : gset string) : bool :=
  negb (Nat.eqb (size all) (size current))
  || existsb (fun s => negb (bool_decide (s ∈ current))) (elements all).

(** [if (binanceWs) { binanceWs.close(); ... }] *)
Definition closeExisting (u : t) : list Effect :=
  match binanceWs u with
  | Some _ => [CloseUpstream]
  | None => []
  end.

Definition isOpenSocket (ws : option ReadyState) : bool :=
  match ws with
  | Some OPEN => true
  | _ => false
  end.

(** [connectToBinance()] *)
Definition connectToBinance (u : t) : list Effect * t :=
  let all := allSymbols u in
  if Nat.eqb (size all) 0 then
    (closeExisting u,
     mk None disconnected (reconnectAttempts u) (wsClients u)
        (clientSymbols u) ∅)
  else if negb (symbolsChanged all (currentStreamSymbols u))
          && isOpenSocket (binanceWs u)
  then ([], u)
  else
    (closeExisting u ++ [OpenUpstream all],
     mk (Some CONNECTING) connecting (reconnectAttempts u) (wsClients u)
        (clientSymbols u) all).

(** [binanceWs.on('open')] *)
Definition onOpen (u : t) : t :=
  mk (Some OPEN) connected 0 (wsClients u) (clientSymbols u)
     (currentStreamSymbols u).

(** [Math.min(1000 * Math.pow(2, reconnectAttempts), MAX_RECONNECT_DELAY)] *)
Definition reconnectDelay (attempts : Z) : Z :=
  Z.min (1000 * 2 ^ attempts) MAX_RECONNECT_DELAY.

(** [binanceWs.on('close')].  [current] tells whether the socket that
    closed is the one [binanceWs] still refers to. *)
Definition onClose (current : bool) (u : t) : list Effect * t :=
  let ws :=
    if current then
      match binanceWs u with
      | Some _ => Some CLOSED
      | None => None
      end
    else binanceWs u in
  if Nat.ltb 0 (size (wsClients u)) then
    let attempts := reconnectAttempts u + 1 in
    ([ScheduleReconnect (reconnectDelay attempts)],
     mk ws disconnected attempts (wsClients u) (clientSymbols u)
        (currentStreamSymbols u))
  else
    ([], mk ws disconnected (reconnectAttempts u) (wsClients u)
            (clientSymbols u) (currentStreamSymbols u)).

(** White space removed by [String.prototype.trim], on ASCII. *)
Definition isTrimSpace (c : ascii) : bool :=
  let n := nat_of_ascii c in
  (Nat.leb 9 n && Nat.leb n 13) || Nat.eqb n 32.

Fixpoint trimStart (cs : list ascii) : list ascii :=
  match cs with
  | c :: cs' => if isTrimSpace c then trimStart cs' else cs
  | [] => []
  end.

Definition trim (cs : list ascii) : list ascii :=
  rev (trimStart (rev (trimStart cs))).

(** [s.split(',')]: the pieces between commas; [cur] is the piece being
    read, reversed. *)
Fixpoint splitComma (cs : list ascii) (cur : list ascii) : list (list ascii) :=
  match cs with
  | [] => [rev cur]
  | c :: cs' =>
      if Nat.eqb (nat_of_ascii c) 44 then rev cur :: splitComma cs' []
      else splitComma cs' (c :: cur)
  end.

(** [symbolsParam.split(',').map(s => s.trim().toUpperCase())
    .filter(s => s.length > 0)], as a list. *)
Definition parseSymbolList (symbolsParam : string) : list string :=
  List.filter (fun s => Nat.ltb 0 (String.length s))
    (map (fun piece => Js.toUpperCase (string_of_list_ascii (trim piece)))
         (splitComma (list_ascii_of_string symbolsParam) [])).

(** [url.searchParams.get('symbols') || ''] turned into the client's set. *)
Definition parseSymbols (param : option string) : gset string :=
  list_to_set (parseSymbolList (default EmptyString param)).

(** [wss.on('connection')] for the downstream socket [ws]. *)
Definition onConnection (ws : nat) (param : option string) (u : t)
    : list Effect * t :=
  let symbols := parseSymbols param in
  let u1 := mk (binanceWs u) (binanceWsState u) (reconnectAttempts u)
               ({[ws]} ∪ wsClients u) (<[ws := symbols]> (clientSymbols u))
               (currentStreamSymbols u) in
  let '(effects, u2) := connectToBinance u1 in
  (effects ++ [SendConnected symbols], u2).

(** A control frame from a client: [JSON.parse] throws (or the value has no
    [type] that is a string), or it yields [type] and [symbols], the latter
    [None] unless it is an array.  An element of the array is [Some s] for the string [s]
    and [None] for a value that is not a string, on which
    [s.toUpperCase()] throws. *)
Inductive ClientMessage : Type :=
| Garbage
| Control (type : string) (symbols : option (list (option string))).

Definition withSubscriptions (m : gmap nat (gset string)) (u : t) : t :=
  mk (binanceWs u) (binanceWsState u) (reconnectAttempts u) (wsClients u) m
     (currentStreamSymbols u).

(** What [msg.symbols.forEach] gets through: the strings before the first
    element that is not a string, and whether it threw there. *)
Fixpoint readSymbols (symbols : list (option string)) : list string * bool :=
  match symbols with
  | [] => ([], false)
  | Some s :: rest => let '(strings, threw) := readSymbols rest in (s :: strings, threw)
  | None :: _ => ([], true)
  end.

(** [ws.on('message')].  The [forEach] changes the stored [Set] in place,
    so what it did before throwing stays; the exception is swallowed by
    the [catch], and [clientSymbols.set] and [connectToBinance()] are then
    not reached.  A [Set] made by [new Set()] for a socket without an entry
    is lost when the [forEach] throws. *)
Definition onClientMessage (ws : nat) (msg : ClientMessage) (u : t)
    : list Effect * t :=
  match msg with
  | Garbage => ([], u)
  | Control type (Some symbols) =>
      let '(strings, threw) := readSymbols symbols in
      if String.eqb type "subscribe" then
        let clientSubs := default ∅ (clientSymbols u !! ws) in
        let clientSubs' :=
          fold_left (fun acc s => {[Js.toUpperCase s]} ∪ acc) strings clientSubs in
        let u' := withSubscriptions (<[ws := clientSubs']> (clientSymbols u)) u in
        if threw then
          match clientSymbols u !! ws with
          | Some _ => ([], u')
          | None => ([], u)
          end
        else connectToBinance u'
      else if String.eqb type "unsubscribe" then
        match clientSymbols u !! ws with
        | Some clientSubs =>
            let clientSubs' :=
              fold_left (fun acc s => acc ∖ {[Js.toUpperCase s]}) strings clientSubs in
            let u' := withSubscriptions (<[ws := clientSubs']> (clientSymbols u)) u in
            if threw then ([], u') else connectToBinance u'
        | None => ([], u)
        end
      else ([], u)
  | Control _ None => ([], u)
  end.

(** [ws.on('close')] of a downstream socket. *)
Definition onClientClose (ws : nat) (u : t) : list Effect * t :=
  connectToBinance
    (mk (binanceWs u) (binanceWsState u) (reconnectAttempts u)
        (wsClients u ∖ {[ws]}) (delete ws (clientSymbols u))
        (currentStreamSymbols u)).

(** The client as the upstream message handler sees it. *)
Definition clientView (open : bool) (ws : nat) (u : t) : Server.Client :=
  Server.mkClient open (clientSymbols u !! ws).

(** Everything that can happen to the proxy's WebSocket side. *)
Inductive Happening : Type :=
| Connection (ws : nat) (param : option string)
| ClientMessageIn (ws : nat) (msg : ClientMessage)
| ClientClose (ws : nat)
| UpstreamOpen
| UpstreamClose (current : bool)
| ReconnectTimer.

Definition handle (u : t) (h : Happening) : t :=
  match h with
  | Connection ws param => snd (onConnection ws param u)
  | ClientMessageIn ws msg => snd (onClientMessage ws msg u)
  | ClientClose ws => snd (onClientClose ws u)
  | UpstreamOpen => onOpen u
  | UpstreamClose current => snd (onClose current u)
  | ReconnectTimer => snd (connectToBinance u)
  end.

Definition reached (u : t) : Prop :=
  exists hs, fold_left handle hs initial = u.

(** The happenings in which every element of a control frame's [symbols]
    array is a string. *)
Definition stringsOnly (h : Happening) : bool :=
  match h with
  | ClientMessageIn _ (Control _ (Some symbols)) => negb (snd (readSymbols symbols))
  | _ => true
  end.

Definition reachedByStrings (u : t) : Prop :=
  exists hs, forallb stringsOnly hs = true /\ fold_left handle hs initial = u.

End Upstream.

(* ===================================================================== *)
(** ** The snapshot scheduler and the last-good cache of the socket hook *)
(* ===================================================================== *)

Module Scheduler.

(** The refs of the hook that the scheduler part of the tick reads and
    writes: the engines of the trackers, the queue and the flag. *)
Record t : Type := mk {
  engines : gmap string Engine.t;
  snapshotQueue : list string;
  snapshotInProgress : bool
}.




(** The book-based part of the tracker kept for flicker suppression. *)
Record LastGood : Type := mkLastGood {
  lastGoodBids : list Hook.OrderBookLevel;
  lastGoodAsks : list Hook.OrderBookLevel;
  lastGoodObiWeighted : Js.number;
  lastGoodObiSpoof : Js.number;
  lastGoodAt : Z
}.

(** [createTracker]'s cache fields. *)
Definition noLastGood : LastGood := mkLastGood [] [] (Js.Num 0) (Js.Num 0) 0.

(** What the tick hands to the UI for the book. *)
Record Shown : Type := mkShown {
  finalBids : list Hook.OrderBookLevel;
  finalAsks : list Hook.OrderBookLevel;
  finalObiWeighted : Js.number;
  finalObiSpoof : Js.number
}.

(** The "cache split" of the tick for one symbol.  [obi] and [deepObi] are
    the two imbalance figures computed from the current book; they are
    inputs here. *)
Definition cacheSplit (e : Engine.t) (obi deepObi : Js.number) (localNow : Z)
    (lg : LastGood) : LastGood * Shown :=
  let '(bids, asks) := Hook.getBook 20 e in
  if Hook.bookIsValid e then
    (mkLastGood bids asks obi deepObi localNow, mkShown bids asks obi deepObi)
  else if (Nat.ltb 0 (length (lastGoodBids lg)))
          && (Nat.ltb 0 (length (lastGoodAsks lg)))
  then (lg, mkShown (lastGoodBids lg) (lastGoodAsks lg)
                    (lastGoodObiWeighted lg) (lastGoodObiSpoof lg))
  else (lg, mkShown bids asks obi deepObi).

(** A cached book is complete and uncrossed. *)
Definition goodBook (bids asks : list Hook.OrderBookLevel) : Prop :=
  bids <> [] /\ asks <> []
  /\ Js.lt (Hook.bestPrice bids) (Hook.bestPrice asks) = true.

End Scheduler.

(* ===================================================================== *)
(** ** Notions used to state the properties                              *)
(* ===================================================================== *)

Module Notions.

Import Engine History.

(** The parsed quantity of the last update for price [p] in a diff side. *)
Fixpoint lastUpdateFor (p : string) (updates : list Level) : option Js.number :=
  match updates with
  | [] => None
  | (p', q) :: rest =>
      match lastUpdateFor p rest with
      | Some qty => Some qty
      | None => if String.eqb p p' then Some (Js.parseFloat q) else None
      end
  end.

(** What a level ends up as after an update with quantity [qty]. *)
Definition stored (qty : Js.number) : option Js.number :=
  if Js.isZero qty then None else Some qty.

(** The diff covers the update id right after [last]. *)
Definition straddles (last : Z) (e : DepthEvent) : Prop :=
  ev_U e <= last + 1 <= ev_u e.

(** The replay of the whole buffer, written from its description: nothing
    to do for an empty buffer; otherwise the events are taken in ascending
    order of [u], those before the first one that straddles
    [lastUpdateId + 1] are passed over and the replay proper ([Replay])
    starts at that event and runs to the end of the buffer; without such
    an event the replay fails. *)
Inductive ReplayBuffer (s : t) : bool * t -> Prop :=
| replay_nothing :
    buffer s = [] -> ReplayBuffer s (true, s)
| replay_no_start :
    buffer s <> [] ->
    Forall (fun e => ~ straddles (lastUpdateId s) e) (sort_by_u (buffer s)) ->
    ReplayBuffer s (false, set_buffer [] s)
| replay_from pre e0 post r :
    sort_by_u (buffer s) = pre ++ e0 :: post ->
    Forall (fun e => ~ straddles (lastUpdateId s) e) pre ->
    straddles (lastUpdateId s) e0 ->
    Replay (e0 :: post) (set_buffer (sort_by_u (buffer s)) s) r ->
    ReplayBuffer s r.

(** A fetch that did not deliver a usable snapshot. *)
Definition fetchFailed (o : Outcome) : Prop :=
  match o with
  | Body d => validPayload d = None
  | _ => True
  end.

(** Running sums of [sizes] on top of [c]. *)
Fixpoint runningTotals (c : Js.number) (sizes : list Js.number) : list Js.number :=
  match sizes with
  | [] => []
  | sz :: rest => Js.add c sz :: runningTotals (Js.add c sz) rest
  end.

(** [x <= y] on numbers; false when either is [NaN]. *)
Definition numLe (x y : Js.number) : Prop :=
  match x, y with
  | Js.Num p, Js.Num q => (p <= q)%Q
  | _, _ => False
  end.

Definition isNumber (x : Js.number) : Prop :=
  match x with
  | Js.Num _ => True
  | Js.NaN => False
  end.

(** The order [sortBook] aims at: rising prices for asks, falling prices
    for bids. *)
Definition inOrder (isAsk : bool) (x y : Js.number) : Prop :=
  if isAsk then numLe x y else numLe y x.

(** A level shown for [book]: an entry of the book, under one of [keys],
    with a strictly positive quantity. *)
Definition shownFrom (book : Book) (keys : list string)
    (l : Hook.OrderBookLevel) : Prop :=
  Js.gtZero (Hook.size l) = true
  /\ exists key, key ∈ keys
                 /\ Hook.price l = Js.parseFloat key
                 /\ map_get key book = Some (Hook.size l).

(** What every handler of the proxy keeps as long as the control frames
    carry only strings in their [symbols] arrays: the subscribed set is
    the union of the clients' sets, the attempt counter is not negative,
    and there is an upstream socket whenever some symbol is wanted. *)
Definition settled (u : Upstream.t) : Prop :=
  Upstream.currentStreamSymbols u = Upstream.allSymbols u
  /\ 0 <= Upstream.reconnectAttempts u
  /\ (Upstream.binanceWs u = None -> Upstream.allSymbols u = ∅).

(** Each diff of [evs] continues from the one before it, the first from
    [last]: it starts no later than the id reached plus one and ends
    beyond it. *)
Fixpoint chained (last : Z) (evs : list DepthEvent) : Prop :=
  match evs with
  | [] => True
  | e :: rest => ev_U e <= last + 1 /\ last < ev_u e /\ chained (ev_u e) rest
  end.

(** The last-good cache is either still empty or holds a complete,
    uncrossed book. *)
Definition cacheConsistent (lg : Scheduler.LastGood) : Prop :=
  (Scheduler.lastGoodBids lg = [] /\ Scheduler.lastGoodAsks lg = [])
  \/ Scheduler.goodBook (Scheduler.lastGoodBids lg) (Scheduler.lastGoodAsks lg).

End Notions.

(* ===================================================================== *)
(** ** Concrete inputs used by the examples below                        *)
(* ===================================================================== *)

Module Inputs.

Import Engine History.

(** A snapshot with id 100, one bid at 10 and one ask at 11. *)
Definition snapshot100 : Payload :=
  mkPayload (Some 100) (Some [("10", "1")]) (Some [("11", "1")])%string.

(** A diff delivered twice while a snapshot is pending. *)
Definition dup101 : DepthEvent := mkEvent 101 101 [("10", "2")%string] [].

Definition pending_with_duplicate : t :=
  mk [] [] 0 false [dup101; dup101] true 0 true false 2000 false.

(** The engine inside the replay loop, after the first copy was applied on
    top of [snapshot100]. *)
Definition replay_after_first : t :=
  mk [("10"%string, Js.Num 2)] [("11"%string, Js.Num 1)] 101 false
     [dup101; dup101] true 0 true false 2000 false.

(** The same engine right after [snapshot100] was loaded, before the
    replay. *)
Definition loaded_with_duplicate : t :=
  set_book (loadLevels [("10", "1")%string]) (loadLevels [("11", "1")%string])
           100 pending_with_duplicate.

(** Diffs 104 and 101 buffered, a snapshot at id 100 loaded: 101 continues
    from the snapshot, 104 does not continue from 101. *)
Definition gap_in_buffer : t :=
  mk [] [] 100 false [mkEvent 104 104 [] []; mkEvent 101 101 [] []]
     true 0 true false 2000 false.

(** A synced engine at id 500 that has met one gap: the diff 503 sits in
    the buffer. *)
Definition snapshot500 : Payload :=
  mkPayload (Some 500) (Some [("10", "1")]) (Some [("11", "1")])%string.

Definition diff503 : DepthEvent := mkEvent 503 503 [] [].
Definition diff506 : DepthEvent := mkEvent 506 506 [] [].

Definition gapped500 : t :=
  mk [("10"%string, Js.Num 1)] [("11"%string, Js.Num 1)] 500 true [diff503]
     false 0 true false 2000 false.

(** A synced engine at id 100 and the next diff of the stream. *)
Definition synced100 : t :=
  mk [("10"%string, Js.Num 1)] [("11"%string, Js.Num 1)] 100 true []
     false 0 false false 2000 false.

Definition diff101 : DepthEvent :=
  mkEvent 101 101 [("10", "2")%string] [("11", "0")%string].

(** The first diff an engine sees, before any snapshot. *)
Definition seed_diff : DepthEvent :=
  mkEvent 7 9 [("10", "1")%string] [("11", "3")%string].

(** A history in which the retry timer armed by a failed attempt fires
    after a later attempt has synced the engine: the timer starts a
    snapshot on the synced engine, a diff arrives while it is pending, and
    the fetch is rejected. *)
Definition leaking_history : list Op :=
  [Start 0; Finish (HttpError 429);
   Start 4000; Finish (Body snapshot100);
   Timer 4100; Event diff101; Finish (HttpError 429)].

Definition leaked : t :=
  mk [("10"%string, Js.Num 1)] [("11"%string, Js.Num 1)] 100 true [diff101]
     false 4100 false false 4000 true.

(** A snapshot body carrying a level of quantity 0. *)
Definition zero_snapshot : Payload :=
  mkPayload (Some 100) (Some [("10", "0"); ("9", "1")])
            (Some [("11", "1")])%string.

(** A short life of the proxy: a rate-limited fetch, a plain failure and a
    successful fetch for two symbols. *)
Definition proxy_history : list Request :=
  [Fetch "BTCUSDT" 1000 10 (Server.NotOk 429);
   Fetch "BTCUSDT" 1000 20 (Server.NotOk 429);
   Fetch "ETHUSDT" 1000 30 (Server.NotOk 500);
   Depth "ethusdt" (Some "5") 40 (Server.Json snapshot100)]%string.

(** A book holding one bid, and a diff that removes it. *)
Definition one_bid : Book := [("10"%string, Js.Num 1)].

(** An open client subscribed to BTCUSDT, and one that subscribed to the
    empty symbol through a [subscribe] message. *)
Definition btc_client : Server.Client :=
  Server.mkClient true (Some {[ "BTCUSDT"%string ]}).

Definition empty_symbol_client : Server.Client :=
  Server.mkClient true (Some {[ EmptyString ]}).

(** The proxy after one successful fetch for BTCUSDT at time 10. *)
Definition cached_proxy : Server.State :=
  snd (Server.fetchBinanceDepth "BTCUSDT" 1000 10 (Server.Json snapshot100)
         Server.initial).

(** Three stale diffs buffered before a snapshot at id 200 was loaded. *)
Definition too_new : t :=
  mk [] [] 200 false
     [mkEvent 95 95 [] []; mkEvent 96 96 [] []; mkEvent 97 97 [] []]
     true 0 true false 2000 false.

(** Diffs 102, 99, 101 buffered, a snapshot at id 100 loaded. *)
Definition out_of_order : t :=
  mk [] [] 100 false
     [mkEvent 102 102 [] []; mkEvent 99 99 [] []; mkEvent 101 101 [] []]
     true 0 true false 2000 false.

(** A fresh engine whose first snapshot is pending, and the diff that
    arrives meanwhile. *)
Definition first_fetch_pending : t := initSnapshot_start 5 constructor.

(** A synced engine with three bids (one of quantity 0) and two asks, in
    no particular order. *)
Definition unsorted_book : t :=
  mk [("9", Js.Num 1); ("10", Js.Num 2); ("8", Js.Num 0)]%string
     [("12", Js.Num 1); ("11", Js.Num 3)]%string
     100 true [] false 0 false false 2000 false.

(** The proxy with two clients, one on BTCUSDT and one on ETHUSDT, and the
    upstream socket open. *)
Definition two_clients : Upstream.t :=
  fold_left Upstream.handle
    [Upstream.Connection 1 (Some "btcusdt"%string);
     Upstream.Connection 2 (Some " ethusdt ,,"%string);
     Upstream.UpstreamOpen]
    Upstream.initial.


End Inputs.

(* ===================================================================== *)
(** ** Concrete runs                                                     *)
(* ===================================================================== *)

Import Engine History Inputs.

Example parseFloat_int : Js.parseFloat "10" = Js.Num 10.
Proof. reflexivity. Qed.

Example parseFloat_frac : Js.parseFloat "0.250" = Js.Num (1 # 4).
Proof. reflexivity. Qed.

Example parseFloat_zero : Js.isZero (Js.parseFloat "0.000") = true.
Proof. reflexivity. Qed.

Example parseFloat_nan : Js.parseFloat "abc" = Js.NaN.
Proof. reflexivity. Qed.

Example parseInt_zero : Js.parseInt "0" = Some 0.
Proof. reflexivity. Qed.

Example parseInt_text : Js.parseInt "12px" = Some 12.
Proof. reflexivity. Qed.

Example toUpperCase_sym : Js.toUpperCase "btcusdt" = "BTCUSDT"%string.
Proof. reflexivity. Qed.

(** [getBook]: bids by falling price, asks by rising price, running totals,
    and a stored quantity of 0 is not shown. *)
Example getBook_sorted :
  Hook.getBook 20
    (mk [("9", Js.Num 1); ("10", Js.Num 2); ("8", Js.Num 0)]%string
        [("12", Js.Num 1); ("11", Js.Num 3)]%string
        100 true [] false 0 false false 2000 false)
  = ([Hook.mkLevel (Js.Num 10) (Js.Num 2) (Js.Num 2);
      Hook.mkLevel (Js.Num 9) (Js.Num 1) (Js.Num 3)],
     [Hook.mkLevel (Js.Num 11) (Js.Num 3) (Js.Num 3);
      Hook.mkLevel (Js.Num 12) (Js.Num 1) (Js.Num 4)]).
Proof. reflexivity. Qed.

(** Scenario "clean sync": snapshot 100, then diffs 101 and 102. *)
Example clean_sync :
  run anytime
    [Start 0; Finish (Body snapshot100);
     Event (mkEvent 101 101 [("10", "2")] [])%string;
     Event (mkEvent 102 102 [] [("11", "0")])%string] constructor
  = Some (mk [("10"%string, Js.Num 2)] [] 102 true [] false 0 false false 2000 false).
Proof. reflexivity. Qed.

(** Scenario "out-of-order buffered replay": [u] = 102, 99, 101 buffered
    while the snapshot with id 100 is in flight. *)
Example buffered_replay :
  run anytime
    [Start 0;
     Event (mkEvent 102 102 [] []); Event (mkEvent 99 99 [] []);
     Event (mkEvent 101 101 [] []);
     Finish (Body snapshot100)] constructor
  = Some (mk [("10"%string, Js.Num 1)] [("11"%string, Js.Num 1)] 102 true []
             false 0 false false 2000 false).
Proof. reflexivity. Qed.

(** Scenario "replay fails": nothing buffered straddles 201. *)
Example replay_too_new :
  run anytime
    [Start 0;
     Event (mkEvent 95 95 [] []); Event (mkEvent 96 96 [] []);
     Event (mkEvent 97 97 [] []);
     Finish (Body (mkPayload (Some 200) (Some []) (Some [])))] constructor
  = Some (mk [] [] 200 false [] false 0 true false 2000 true).
Proof. reflexivity. Qed.

(* ===================================================================== *)
(** ** Snapshot replay                                                   *)
(* ===================================================================== *)

Section ReplayLoop.

Implicit Types (s : t) (e : DepthEvent) (evs : list DepthEvent).

Lemma lastUpdateId_applyEvent e s : lastUpdateId (applyEvent e s) = ev_u e.
Proof. reflexivity. Qed.

Lemma runningId_cons last e evs :
  runningId last (e :: evs) = runningId (Z.max last (ev_u e)) evs.
Proof. reflexivity. Qed.

(** The loop of the source does what the description of the loop says. *)
Lemma replayLoop_refines evs : forall s, Replay evs s (replayLoop evs s).
Proof.
  induction evs as [|e rest IH]; intros s; simpl.
  - constructor.
  - destruct (Z.ltb_spec (lastUpdateId s + 1) (ev_U e)) as [Hgap|Hcont].
    + apply replay_fail. now apply replay_gap.
    + destruct (Z.ltb_spec (lastUpdateId s) (ev_u e)) as [Hnew|Hold].
      * eapply replay_next; [now apply replay_apply | apply IH].
      * eapply replay_next; [now apply replay_skip | apply IH].
Qed.

(** ... and nothing else. *)
Lemma Replay_functional evs s r : Replay evs s r -> r = replayLoop evs s.
Proof.
  induction 1 as [s|s e rest Hstep|s e rest s1 r Hstep _ IH]; simpl.
  - reflexivity.
  - inversion Hstep as [Hgap| |].
    apply Z.ltb_lt in Hgap. now rewrite Hgap.
  - inversion Hstep as [|Hcont Hold Heq|Hcont Hnew Heq]; subst s1.
    + apply Z.ltb_ge in Hcont, Hold. now rewrite Hcont, Hold.
    + apply Z.ltb_ge in Hcont. apply Z.ltb_lt in Hnew. now rewrite Hcont, Hnew.
Qed.

Lemma replayLoop_buffer evs : forall s, buffer (snd (replayLoop evs s)) = [].
Proof.
  induction evs as [|e rest IH]; intros s; simpl; [reflexivity|].
  destruct (lastUpdateId s + 1 <? ev_U e); [reflexivity|].
  destruct (lastUpdateId s <? ev_u e); apply IH.
Qed.

(** The replay fails exactly when some event starts beyond the id reached
    just before it, plus one. *)
Lemma replayLoop_fails_iff evs : forall s,
  fst (replayLoop evs s) = false <->
  exists i e, evs !! i = Some e /\
              runningId (lastUpdateId s) (take i evs) + 1 < ev_U e.
Proof.
  induction evs as [|e rest IH]; intros s; simpl.
  - split; [discriminate|]. intros (i & e & Hi & _). now destruct i.
  - destruct (Z.ltb_spec (lastUpdateId s + 1) (ev_U e)) as [Hgap|Hcont].
    + split; [intros _|reflexivity]. now exists 0%nat, e.
    + assert (Hshift : forall s',
                lastUpdateId s' = Z.max (lastUpdateId s) (ev_u e) ->
                fst (replayLoop rest s') = false <->
                exists i e', (e :: rest) !! i = Some e' /\
                  runningId (lastUpdateId s) (take i (e :: rest)) + 1 < ev_U e').
      { intros s' Hs'. rewrite IH, Hs'. split.
        - intros (i & e' & Hi & Hlt). now exists (S i), e'.
        - intros (i & e' & Hi & Hlt). destruct i as [|i]; simpl in *.
          + injection Hi as <-. unfold runningId in Hlt. simpl in Hlt. lia.
          + now exists i, e'. }
      destruct (Z.ltb_spec (lastUpdateId s) (ev_u e)) as [Hnew|Hold];
        apply Hshift; simpl; lia.
Qed.

End ReplayLoop.

Lemma replayBuffer_buffer (s : t) : buffer (snd (replayBuffer s)) = [].
Proof.
  unfold replayBuffer. destruct (buffer s) as [|e0 b] eqn:Hb; [exact Hb|].
  destruct (findStart _ _ _); [apply replayLoop_buffer | reflexivity].
Qed.

Lemma replayBuffer_loop (s : t) (startIdx : nat) :
  buffer s <> [] ->
  findStart (lastUpdateId s) 0 (sort_by_u (buffer s)) = Some startIdx ->
  replayBuffer s =
  replayLoop (drop startIdx (sort_by_u (buffer s)))
             (set_buffer (sort_by_u (buffer s)) s).
Proof.
  intros Hne Hfind. unfold replayBuffer.
  destruct (buffer s) as [|e0 b]; [congruence|]. now rewrite Hfind.
Qed.

(** C1 as stated fails: the second copy of a diff does not go beyond the
    current [lastUpdateId], yet the replay neither fails nor applies it; the
    snapshot completes and the engine is synced. *)
Lemma replay_passes_over_stale_event :
  run anytime [Start 0; Event dup101; Event dup101] constructor
  = Some pending_with_duplicate
  /\ applyEvent dup101
       (set_buffer (sort_by_u (buffer pending_with_duplicate))
          (set_book (loadLevels [("10", "1")%string])
                    (loadLevels [("11", "1")%string]) 100
                    pending_with_duplicate))
     = replay_after_first
  /\ ~ (ev_U dup101 <= lastUpdateId replay_after_first + 1
        /\ ev_u dup101 > lastUpdateId replay_after_first)
  /\ replayLoop [dup101] replay_after_first
     = (true, set_buffer [] replay_after_first)
  /\ initSnapshot_finish (Body snapshot100) pending_with_duplicate
     = mk [("10"%string, Js.Num 2)] [("11"%string, Js.Num 1)] 101 true []
          false 0 false false 2000 false.
Proof.
  split; [reflexivity|]. split; [reflexivity|].
  split; [|split]; [|reflexivity|reflexivity].
  intros [_ H]. vm_compute in H. discriminate H.
Qed.

(* ===================================================================== *)
(** ** Diffs arriving at an engine                                       *)
(* ===================================================================== *)

Section ProcessEvent.

Implicit Types (s : t) (e : DepthEvent).

(** With no snapshot in flight, a synced engine starts [processEvent] with
    an empty buffer: whatever was left in it is discarded. *)
Lemma steady_state_clear s :
  isSynced s = true -> resyncInFlight s = false ->
  (if isSynced s && negb (resyncInFlight s)
      && (0 <? Z.of_nat (length (buffer s)))
   then set_buffer [] s else s) = set_buffer [] s.
Proof.
  intros Hs Hf. rewrite Hs, Hf. simpl.
  destruct (Z.ltb_spec 0 (Z.of_nat (length (buffer s)))) as [Hlen|Hlen];
    [reflexivity|].
  destruct s as [bs az n sy buf fl at' nr dg bo rt]. simpl in *.
  destruct buf; [reflexivity | simpl in Hlen; lia].
Qed.

Lemma processEvent_steady s e :
  isSynced s = true -> resyncInFlight s = false ->
  processEvent e s =
  if ev_u e <=? lastUpdateId s then set_buffer [] s
  else if lastUpdateId s + 1 <? ev_U e
       then set_needsResync true (set_buffer [e] s)
       else applyEvent e (set_buffer [] s).
Proof.
  intros Hs Hf. unfold processEvent.
  rewrite (steady_state_clear s Hs Hf). simpl. rewrite Hs, Hf. simpl.
  reflexivity.
Qed.

(** A diff that does not go beyond [lastUpdateId] leaves a steady engine
    exactly as it is. *)
Lemma stale_diff_is_dropped s e :
  isSynced s = true -> resyncInFlight s = false -> buffer s = [] ->
  ev_u e <= lastUpdateId s ->
  processEvent e s = s.
Proof.
  intros Hs Hf Hb Hu. rewrite (processEvent_steady s e Hs Hf).
  apply Z.leb_le in Hu. rewrite Hu.
  destruct s; simpl in *; now subst.
Qed.

End ProcessEvent.

(** The part of "gap after sync" that holds on every synced engine with no
    snapshot in flight: the gapped diff ends up last in the buffer
    (appended when the buffer was empty), [needsResync] is set, and bids,
    asks and [lastUpdateId] are as they were. *)
Lemma gap_after_sync_keeps_book (s : t) (e : DepthEvent) :
  isSynced s = true -> resyncInFlight s = false ->
  lastUpdateId s < ev_u e -> lastUpdateId s + 1 < ev_U e ->
  last (buffer (processEvent e s)) = Some e
  /\ (buffer s = [] -> buffer (processEvent e s) = buffer s ++ [e])
  /\ needsResync (processEvent e s) = true
  /\ bids (processEvent e s) = bids s
  /\ asks (processEvent e s) = asks s
  /\ lastUpdateId (processEvent e s) = lastUpdateId s.
Proof.
  intros Hs Hf Hu HU. rewrite (processEvent_steady s e Hs Hf).
  apply Z.leb_gt in Hu. apply Z.ltb_lt in HU. rewrite Hu, HU. simpl.
  repeat split; try reflexivity. now intros ->.
Qed.

(** C2 (the code departs from it).  [gapped500] is the synced engine a
    first gap leaves behind: diff 503 was put in the buffer so as not to
    lose it.  When diff 506 arrives, again beyond a gap, [processEvent]
    first empties the buffer and then buffers 506 alone: 503 is lost and
    506 is not appended to the buffer.  The same two diffs arriving while a
    snapshot is in flight are both kept, in order.  Bids, asks and
    [lastUpdateId] are untouched and [needsResync] is set. *)
Theorem gap_after_sync_loses_buffered_diff :
  run anytime [Start 0; Finish (Body snapshot500); Event diff503] constructor
  = Some gapped500
  /\ isSynced gapped500 = true /\ resyncInFlight gapped500 = false
  /\ lastUpdateId gapped500 < ev_u diff506
  /\ lastUpdateId gapped500 + 1 < ev_U diff506
  /\ buffer gapped500 = [diff503]
  /\ buffer (processEvent diff506 gapped500) = [diff506]
  /\ buffer (processEvent diff506 gapped500) <> buffer gapped500 ++ [diff506]
  /\ buffer (processEvent diff506
               (processEvent diff503 (initSnapshot_start 0 constructor)))
     = [diff503; diff506]
  /\ needsResync (processEvent diff506 gapped500) = true
  /\ bids (processEvent diff506 gapped500) = bids gapped500
  /\ asks (processEvent diff506 gapped500) = asks gapped500
  /\ lastUpdateId (processEvent diff506 gapped500) = lastUpdateId gapped500.
Proof.
  repeat split; try reflexivity. discriminate.
Qed.

(** C5.  A synced engine with an empty buffer and no snapshot in flight
    that has just applied diff [e] is left untouched by a second
    [processEvent(e)]: [e.u <= lastUpdateId] holds and the diff is dropped,
    so bids, asks, [lastUpdateId] and buffer (and every other field) are
    unchanged. *)
Theorem second_delivery_is_dropped (s : t) (e : DepthEvent) :
  isSynced s = true -> resyncInFlight s = false -> buffer s = [] ->
  lastUpdateId s < ev_u e -> ev_U e <= lastUpdateId s + 1 ->
  processEvent e s = applyEvent e s
  /\ ev_u e <= lastUpdateId (processEvent e s)
  /\ processEvent e (processEvent e s) = processEvent e s
  /\ bids (processEvent e (processEvent e s)) = bids (processEvent e s)
  /\ asks (processEvent e (processEvent e s)) = asks (processEvent e s)
  /\ lastUpdateId (processEvent e (processEvent e s)) = ev_u e
  /\ buffer (processEvent e (processEvent e s)) = [].
Proof.
  intros Hs Hf Hb Hu HU.
  assert (Hfirst : processEvent e s = applyEvent e s).
  { rewrite (processEvent_steady s e Hs Hf).
    apply Z.leb_gt in Hu. apply Z.ltb_ge in HU. rewrite Hu, HU.
    destruct s; simpl in *; now subst. }
  assert (Hsecond : processEvent e (applyEvent e s) = applyEvent e s).
  { apply stale_diff_is_dropped; simpl; try assumption. lia. }
  rewrite Hfirst, Hsecond. simpl. repeat split; try lia; assumption.
Qed.

Lemma second_delivery_is_dropped_witness :
  (isSynced synced100 = true /\ resyncInFlight synced100 = false
   /\ buffer synced100 = []
   /\ lastUpdateId synced100 < ev_u diff101
   /\ ev_U diff101 <= lastUpdateId synced100 + 1)
  /\ processEvent diff101 (processEvent diff101 synced100)
     = processEvent diff101 synced100.
Proof.
  split; [repeat split; vm_compute; discriminate|].
  destruct (second_delivery_is_dropped synced100 diff101)
    as (_ & _ & H & _);
    try reflexivity; try (vm_compute; discriminate); exact H.
Defined.

(** C10.  An unsynced, not yet degraded engine with no snapshot in flight
    takes the first diff as its book: the diff is applied, [lastUpdateId]
    is its [u], and [degraded], [isSynced] and [needsResync] are all true.
    [getIsSynced()] then answers true, and for the engine fresh from the
    constructor the validity gate of the hook already opens on a book made
    of one diff ([seed_diff]), no snapshot having been fused. *)
Theorem degraded_seed_reports_synced (s : t) (e : DepthEvent) :
  isSynced s = false -> degraded s = false -> resyncInFlight s = false ->
  bids (processEvent e s) = applyUpdate (ev_b e) (bids s)
  /\ asks (processEvent e s) = applyUpdate (ev_a e) (asks s)
  /\ lastUpdateId (processEvent e s) = ev_u e
  /\ degraded (processEvent e s) = true
  /\ isSynced (processEvent e s) = true
  /\ needsResync (processEvent e s) = true
  /\ resyncInFlight (processEvent e s) = false
  /\ buffer (processEvent e s) = buffer s
  /\ Hook.bookIsValid (processEvent seed_diff constructor) = true.
Proof.
  intros Hs Hd Hf. unfold processEvent. rewrite Hs, Hf. simpl.
  rewrite Hs, Hd, Hf. simpl. repeat split; try assumption.
Qed.

Lemma degraded_seed_reports_synced_witness :
  (isSynced constructor = false /\ degraded constructor = false
   /\ resyncInFlight constructor = false)
  /\ isSynced (processEvent seed_diff constructor) = true
  /\ needsResync (processEvent seed_diff constructor) = true
  /\ degraded (processEvent seed_diff constructor) = true
  /\ lastUpdateId (processEvent seed_diff constructor) = 9.
Proof.
  split; [repeat split|].
  destruct (degraded_seed_reports_synced constructor seed_diff)
    as (_ & _ & Hid & Hd & Hs & Hn & _); try reflexivity.
  now repeat split.
Defined.

(* ===================================================================== *)
(** ** Invariants of engine histories                                    *)
(* ===================================================================== *)

Section EngineInvariants.

Variable allow : Policy.

(** A property kept by every enabled operation holds along every run. *)
Lemma run_invariant (P : t -> Prop) :
  (forall op s, P s -> enabled allow op s = true -> P (exec op s)) ->
  forall ops s s', P s -> run allow ops s = Some s' -> P s'.
Proof.
  intros Hstep. induction ops as [|op rest IH]; intros s s' HP Hrun; simpl in Hrun.
  - now injection Hrun as <-.
  - destruct (enabled allow op s) eqn:Hen; [|discriminate].
    eapply IH; [|exact Hrun]. now apply Hstep.
Qed.

Lemma reachable_invariant (P : t -> Prop) :
  P constructor ->
  (forall op s, P s -> enabled allow op s = true -> P (exec op s)) ->
  forall s, reachable allow s -> P s.
Proof.
  intros Hinit Hstep s [ops Hrun].
  exact (run_invariant P Hstep ops constructor s Hinit Hrun).
Qed.

Lemma reachable_step (op : Op) (s : t) :
  reachable allow s -> enabled allow op s = true -> reachable allow (exec op s).
Proof.
  intros [ops Hrun] Hen. exists (ops ++ [op]).
  revert Hrun. generalize constructor as s0.
  induction ops as [|op' rest IH]; intros s0 Hrun; simpl in *.
  - injection Hrun as ->. now rewrite Hen.
  - destruct (enabled allow op' s0); [now apply IH | discriminate].
Qed.

End EngineInvariants.

(** [processEvent] never clears [needsResync] and never unsets [isSynced]. *)
Lemma processEvent_flags (e : DepthEvent) (s : t) :
  (needsResync (processEvent e s) = false -> needsResync s = false)
  /\ (isSynced s = true -> isSynced (processEvent e s) = true)
  /\ resyncInFlight (processEvent e s) = resyncInFlight s
  /\ snapshotBackoffMs (processEvent e s) = snapshotBackoffMs s.
Proof.
  unfold processEvent.
  destruct (isSynced s) eqn:Hs, (resyncInFlight s) eqn:Hf; simpl;
    rewrite ?Hs, ?Hf; simpl;
    repeat match goal with
      | |- context [if ?c then _ else _] =>
          destruct c; simpl; rewrite ?Hs, ?Hf; simpl
      end;
    repeat split; intros; simpl in *; congruence.
Qed.

(** Without any assumption on the environment. *)
Lemma synced_when_no_resync_needed (s : t) :
  reachable anytime s -> needsResync s = false -> isSynced s = true.
Proof.
  revert s.
  apply (reachable_invariant anytime
           (fun s => needsResync s = false -> isSynced s = true));
    [discriminate|].
  intros op s IH _. destruct op as [e|now|o|now]; simpl.
  - destruct (processEvent_flags e s) as (Hn & Hs & _). auto.
  - unfold initSnapshot_start. destruct (resyncInFlight s); exact IH.
  - unfold initSnapshot_finish.
    destruct o as [status| |d|]; simpl; try exact IH; try discriminate.
    destruct (validPayload d) as [[[n bs] az]|]; simpl; [|exact IH].
    destruct (replayBuffer _) as [[] s1]; simpl; [reflexivity | discriminate].
  - unfold retryTimer_start, initSnapshot_start. simpl.
    destruct (resyncInFlight s); exact IH.
Qed.

(** When no diff arrives during a snapshot the engine did not need. *)
Lemma empty_buffer_when_no_resync_needed (s : t) :
  reachable calm s -> needsResync s = false ->
  isSynced s = true /\ buffer s = [].
Proof.
  revert s.
  apply (reachable_invariant calm
           (fun s => needsResync s = false ->
                     isSynced s = true /\ buffer s = []));
    [discriminate|].
  intros op s IH Hen. destruct op as [e|now|o|now]; simpl in *.
  - intros Hn. destruct (processEvent_flags e s) as (Hn' & _).
    destruct (IH (Hn' Hn)) as (Hs & Hb).
    unfold enabled, calm in Hen.
    rewrite (Hn' Hn), andb_true_r, orb_false_r in Hen.
    apply negb_true_iff in Hen.
    rewrite (processEvent_steady s e Hs Hen) in *.
    destruct (ev_u e <=? lastUpdateId s); [now simpl|].
    destruct (lastUpdateId s + 1 <? ev_U e); [discriminate Hn | now simpl].
  - unfold initSnapshot_start. destruct (resyncInFlight s); exact IH.
  - unfold initSnapshot_finish.
    destruct o as [status| |d|]; simpl; try exact IH; try discriminate.
    destruct (validPayload d) as [[[n bs] az]|]; simpl; [|exact IH].
    pose proof (replayBuffer_buffer (set_book (loadLevels bs) (loadLevels az) n s)) as Hbuf.
    destruct (replayBuffer _) as [[] s1]; simpl in *; [auto | discriminate].
  - unfold retryTimer_start, initSnapshot_start. simpl.
    destruct (resyncInFlight s); exact IH.
Qed.

(** A whole [initSnapshot()] call during which no diff arrives keeps a
    history calm. *)
Lemma undisturbed_snapshot_is_calm (now : Z) (o : Outcome) (s : t) :
  reachable calm s -> reachable calm (initSnapshot now o s).
Proof.
  intros Hs. unfold initSnapshot.
  destruct (resyncInFlight s) eqn:Hf; [exact Hs|].
  apply (reachable_step calm (Finish o)).
  - now apply (reachable_step calm (Start now)).
  - simpl. unfold initSnapshot_start. now rewrite Hf.
Qed.

(** What does hold of the two flags and the buffer.  In every state an
    engine can reach, [needsResync == false] implies [isSynced == true];
    the buffer is empty as well in every state reached without a diff
    arriving while a snapshot was pending on an engine whose [needsResync]
    was false. *)
Lemma no_resync_needed_means_synced (s : t) :
  reachable anytime s -> needsResync s = false ->
  isSynced s = true
  /\ (reachable calm s -> buffer s = []).
Proof.
  intros Hreach Hn. split; [now apply synced_when_no_resync_needed|].
  intros Hcalm. now destruct (empty_buffer_when_no_resync_needed s Hcalm Hn).
Qed.

(** C3 (the code departs from it).  The engine's own retry timer, armed by
    a failed attempt, fires after a later attempt has synced the engine
    and starts a snapshot although [needsResync] is false; a diff arrives
    during that fetch and is buffered; the fetch is rejected with 429 and
    [initSnapshot] returns without touching the buffer or [needsResync].
    Every [initSnapshot] of [leaking_history] has then completed,
    [needsResync] is false, [isSynced] is true, and the buffer is not
    empty; the next [processEvent] discards it. *)
Theorem buffer_leaks_after_rejected_resnapshot :
  run anytime leaking_history constructor = Some leaked
  /\ reachable anytime leaked
  /\ resyncInFlight leaked = false
  /\ needsResync leaked = false
  /\ isSynced leaked = true
  /\ buffer leaked = [diff101]
  /\ ~ (isSynced leaked = true /\ buffer leaked = [])
  /\ buffer (processEvent (mkEvent 90 90 [] []) leaked) = [].
Proof.
  split; [reflexivity|]. split; [exists leaking_history; reflexivity|].
  repeat split. intros [_ H]. discriminate H.
Qed.

(* ===================================================================== *)
(** ** Back-off bounds                                                   *)
(* ===================================================================== *)

Lemma doubling_inBounds (b : Z) :
  inBounds b -> inBounds (Z.min (b * 2) 30000).
Proof. unfold inBounds. lia. Qed.

Lemma replayLoop_backoff (evs : list DepthEvent) : forall s,
  snapshotBackoffMs (snd (replayLoop evs s)) = snapshotBackoffMs s.
Proof.
  induction evs as [|e rest IH]; intros s; simpl; [reflexivity|].
  destruct (lastUpdateId s + 1 <? ev_U e); [reflexivity|].
  destruct (lastUpdateId s <? ev_u e); now rewrite IH.
Qed.

Lemma replayBuffer_backoff (s : t) :
  snapshotBackoffMs (snd (replayBuffer s)) = snapshotBackoffMs s.
Proof.
  unfold replayBuffer. destruct (buffer s); [reflexivity|].
  destruct (findStart _ _ _); [|reflexivity]. now rewrite replayLoop_backoff.
Qed.

Lemma engine_backoff_inBounds (s : t) :
  reachable anytime s -> inBounds (snapshotBackoffMs s).
Proof.
  revert s.
  apply (reachable_invariant anytime (fun s => inBounds (snapshotBackoffMs s)));
    [unfold inBounds; simpl; unfold minBackoffMs; lia|].
  intros op s IH _. destruct op as [e|now|o|now]; simpl.
  - destruct (processEvent_flags e s) as (_ & _ & _ & ->). exact IH.
  - unfold initSnapshot_start. destruct (resyncInFlight s); exact IH.
  - unfold initSnapshot_finish.
    destruct o as [status| |d|]; simpl; try (now apply doubling_inBounds).
    destruct (validPayload d) as [[[n bs] az]|]; simpl;
      [|now apply doubling_inBounds].
    pose proof (replayBuffer_backoff (set_book (loadLevels bs) (loadLevels az) n s)) as Hb.
    destruct (replayBuffer _) as [[] s1]; simpl in *.
    + unfold inBounds, minBackoffMs. lia.
    + now rewrite Hb.
  - unfold retryTimer_start, initSnapshot_start. simpl.
    destruct (resyncInFlight s); exact IH.
Qed.

Lemma rateOf_inBounds (symbol : string) (st : Server.State) :
  recordsInBounds st -> inBounds (Server.backoffMs (Server.rateOf symbol st)).
Proof.
  intros Hst. unfold Server.rateOf.
  destruct (Server.rateLimitState st !! symbol) as [rs|] eqn:Hl; simpl.
  - now apply (Hst symbol).
  - unfold inBounds, Server.MIN_BACKOFF_MS. lia.
Qed.

Lemma fetchBinanceDepth_inBounds symbol limit now r (st : Server.State) :
  recordsInBounds st ->
  recordsInBounds (snd (Server.fetchBinanceDepth symbol limit now r st)).
Proof.
  intros Hst. unfold Server.fetchBinanceDepth.
  destruct r as [status|d|]; simpl; [| |exact Hst].
  - destruct ((status =? 429) || (status =? 418)); simpl; [|exact Hst].
    intros sym rs. simpl. rewrite lookup_insert.
    case_decide as Heq; [|now apply Hst].
    intros [= <-]. simpl.
    apply doubling_inBounds, rateOf_inBounds, Hst.
  - destruct (validPayload d) as [[[n bs] az]|]; simpl; [|exact Hst].
    intros sym rs. simpl. rewrite lookup_insert.
    case_decide as Heq; [|now apply Hst].
    intros [= <-]. simpl. unfold inBounds, Server.MIN_BACKOFF_MS. lia.
Qed.

Lemma serve_inBounds (st : Server.State) (rq : Request) :
  recordsInBounds st -> recordsInBounds (serve st rq).
Proof.
  intros Hst. destruct rq as [symbol limit now r|symbolParam limitQuery now r]; simpl.
  - now apply fetchBinanceDepth_inBounds.
  - unfold Server.depthHandler.
    match goal with
    | |- context [Server.fetchBinanceDepth ?a ?b ?c ?d ?e] =>
        pose proof (fetchBinanceDepth_inBounds a b c d e Hst) as Hf;
        destruct (Server.fetchBinanceDepth a b c d e) as [fresh st']
    end.
    simpl in Hf.
    repeat match goal with
      | |- context [match ?x with _ => _ end] => destruct x; simpl
      end; assumption.
Qed.

Lemma served_inBounds (st : Server.State) : served st -> recordsInBounds st.
Proof.
  intros [rqs <-].
  assert (Hinit : recordsInBounds Server.initial).
  { intros sym rs. simpl. now rewrite lookup_empty. }
  revert Hinit. generalize Server.initial as st0.
  induction rqs as [|rq rest IH]; intros st0 Hst; simpl; [exact Hst|].
  apply IH. now apply serve_inBounds.
Qed.

(** C9.  The back-off delay of the proxy's rate-limit record of any symbol
    and the snapshot back-off of an engine stay within
    [MIN_BACKOFF, MAX_BACKOFF] = [2000, 30000] in every state the proxy,
    respectively the engine, can reach: both start at [MIN_BACKOFF], every
    doubling is capped at [MAX_BACKOFF], and a success writes
    [MIN_BACKOFF]. *)
Theorem backoff_stays_within_bounds
    (st : Server.State) (symbol : string) (s : t) :
  served st -> reachable anytime s ->
  inBounds (Server.backoffMs (Server.rateOf symbol st))
  /\ inBounds (snapshotBackoffMs s)
  /\ Server.backoffMs (Server.rateOf symbol Server.initial) = 2000
  /\ snapshotBackoffMs constructor = 2000
  /\ (forall b, inBounds b -> inBounds (Z.min (b * 2) 30000))
  /\ (forall limit now d c st',
        Server.fetchBinanceDepth symbol limit now (Server.Json d) st = (Some c, st') ->
        Server.backoffMs (Server.rateOf symbol st') = 2000)
  /\ (forall d n bs az,
        validPayload d = Some (n, bs, az) ->
        fst (replayBuffer (set_book (loadLevels bs) (loadLevels az) n s)) = true ->
        snapshotBackoffMs (initSnapshot_finish (Body d) s) = 2000).
Proof.
  intros Hst Hs.
  split; [apply rateOf_inBounds, served_inBounds, Hst|].
  split; [apply engine_backoff_inBounds, Hs|].
  split; [reflexivity|]. split; [reflexivity|].
  split; [exact doubling_inBounds|]. split.
  - intros limit now d c st'. unfold Server.fetchBinanceDepth.
    destruct (validPayload d) as [[[n bs] az]|]; [|discriminate].
    intros [= <- <-]. unfold Server.rateOf. simpl.
    now rewrite lookup_insert_eq.
  - intros d n bs az Hd Hok. unfold initSnapshot_finish. rewrite Hd.
    destruct (replayBuffer _) as [ok s1]. simpl in Hok. now subst ok.
Qed.

Lemma backoff_stays_within_bounds_witness :
  served (fold_left serve proxy_history Server.initial)
  /\ reachable anytime leaked
  /\ inBounds (Server.backoffMs
                 (Server.rateOf "BTCUSDT"
                    (fold_left serve proxy_history Server.initial)))
  /\ inBounds (snapshotBackoffMs leaked).
Proof.
  assert (Hst : served (fold_left serve proxy_history Server.initial))
    by (exists proxy_history; reflexivity).
  assert (Hs : reachable anytime leaked)
    by (exists leaking_history; reflexivity).
  destruct (backoff_stays_within_bounds _ "BTCUSDT" _ Hst Hs) as (H1 & H2 & _).
  now repeat split.
Defined.

(* ===================================================================== *)
(** ** Zero-quantity levels                                              *)
(* ===================================================================== *)

Section BookEntries.

Variable P : Js.number -> Prop.

Lemma map_delete_entries k book :
  allEntries P book -> allEntries P (map_delete k book).
Proof.
  unfold allEntries. induction 1 as [|[k' v'] m Hv _ IH]; simpl; [constructor|].
  destruct (String.eqb k k'); [exact IH | now constructor].
Qed.

Lemma map_set_entries k v book :
  P v -> allEntries P book -> allEntries P (map_set k v book).
Proof.
  unfold allEntries. intros Hv.
  induction 1 as [|[k' v'] m Hv' Hm IH]; simpl.
  - now repeat constructor.
  - destruct (String.eqb k k'); now constructor.
Qed.

End BookEntries.

(** Applying a diff never stores a quantity equal to 0. *)
Lemma applyUpdate_stores_no_zero (updates : list Level) : forall book,
  allEntries (fun v => Js.isZero v = false) book ->
  allEntries (fun v => Js.isZero v = false) (applyUpdate updates book).
Proof.
  induction updates as [|[p q] rest IH]; intros book Hbook; simpl; [exact Hbook|].
  apply IH. destruct (Js.isZero (Js.parseFloat q)) eqn:Hz.
  - now apply map_delete_entries.
  - now apply map_set_entries.
Qed.

(** C4 (the code departs from it).  A diff that carries quantity 0 for a
    price removes the level ([applyUpdate] deletes it), but a snapshot that
    carries such a level has it stored: after [initSnapshot] on
    [zero_snapshot] the engine is synced and its bids map holds the price
    "10" with quantity 0, which is not strictly positive. *)
Theorem snapshot_stores_zero_quantity_level :
  applyUpdate [("10", "0")%string] one_bid = []
  /\ reachable anytime (initSnapshot 0 (Body zero_snapshot) constructor)
  /\ isSynced (initSnapshot 0 (Body zero_snapshot) constructor) = true
  /\ bids (initSnapshot 0 (Body zero_snapshot) constructor)
     = [("10"%string, Js.Num 0); ("9"%string, Js.Num 1)]
  /\ map_get "10" (bids (initSnapshot 0 (Body zero_snapshot) constructor))
     = Some (Js.Num 0)
  /\ ~ Js.positive (Js.Num 0).
Proof.
  split; [reflexivity|].
  split; [exists [Start 0; Finish (Body zero_snapshot)]; reflexivity|].
  repeat split. simpl. intros H. now apply Qlt_irrefl in H.
Qed.

(* ===================================================================== *)
(** ** The proxy: frame filter, fetch failures, depth endpoint           *)
(* ===================================================================== *)

Lemma truthy_spec (s : string) : Server.truthy s = true <-> s <> EmptyString.
Proof.
  unfold Server.truthy. rewrite negb_true_iff. apply String.eqb_neq.
Qed.

(** C6 (as amended).  A frame is sent to a client exactly when the client
    is open and either the frame is not JSON (it then goes to every open
    client), or the frame parses, carries a non-empty symbol in [data.s]
    and that symbol is in the client's set.  A frame that parses but
    carries no symbol is sent to nobody. *)
Theorem frame_forwarded_iff (f : Server.Frame) (c : Server.Client) :
  (Server.forwards f c = true <->
   Server.isOpen c = true
   /\ (f = Server.NotJson
       \/ exists symbol clientSubs,
            f = Server.Message (Some symbol) /\ symbol <> EmptyString
            /\ Server.subscriptions c = Some clientSubs
            /\ symbol ∈ clientSubs))
  /\ (forall clients,
        Server.broadcast Server.NotJson clients
        = List.filter Server.isOpen clients)
  /\ (forall clients, Server.broadcast (Server.Message None) clients = []).
Proof.
  split; [|split].
  - unfold Server.forwards. destruct (Server.isOpen c); [|split; [discriminate|]].
    + destruct f as [|[symbol|]].
      * split; auto.
      * destruct (Server.subscriptions c) as [clientSubs|].
        -- rewrite andb_true_iff, truthy_spec, bool_decide_eq_true. split.
           ++ intros [Ht Hin]. split; [reflexivity|]. right.
              now exists symbol, clientSubs.
           ++ intros [_ [Hf|(sym & cs & Hf & Hne & Hcs & Hin)]]; [discriminate|].
              injection Hf as <-. injection Hcs as <-. now split.
        -- split; [discriminate|].
           intros [_ [Hf|(sym & cs & _ & _ & Hcs & _)]]; discriminate.
      * destruct (Server.subscriptions c); (split; [discriminate|]);
          intros [_ [Hf|(sym & cs & Hf & _)]]; discriminate.
    + now intros [Hopen _].
  - intros clients. unfold Server.broadcast. apply List.filter_ext.
    intros c'. unfold Server.forwards. now destruct (Server.isOpen c').
  - intros clients. unfold Server.broadcast.
    induction clients as [|c' rest IH]; [reflexivity|]. simpl. rewrite IH.
    unfold Server.forwards.
    now destruct (Server.isOpen c'), (Server.subscriptions c').
Qed.

Lemma frame_forwarded_iff_witness :
  Server.forwards (Server.Message (Some "BTCUSDT"%string)) btc_client = true.
Proof.
  destruct (frame_forwarded_iff (Server.Message (Some "BTCUSDT"%string)) btc_client)
    as ((_ & Hback) & _).
  apply Hback. split; [reflexivity|]. right.
  exists "BTCUSDT"%string, {[ "BTCUSDT"%string ]}.
  split; [reflexivity|]. split; [discriminate|].
  split; [reflexivity | set_solver].
Defined.

(** C6 as stated fails: a frame that is JSON but has no [data.s] yields no
    symbol, yet it is not forwarded to the open client; and a frame whose
    symbol is the empty string is withheld from a client whose set contains
    the empty string. *)
Lemma frame_without_symbol_is_dropped :
  Server.isOpen btc_client = true
  /\ extractSymbol (Server.Message None) = None
  /\ Server.forwards (Server.Message None) btc_client = false
  /\ Server.broadcast (Server.Message None) [btc_client] = []
  /\ extractSymbol (Server.Message (Some EmptyString)) = Some EmptyString
  /\ Server.subscriptions empty_symbol_client = Some {[ EmptyString ]}
  /\ Server.forwards (Server.Message (Some EmptyString)) empty_symbol_client = false.
Proof.
  repeat split.
Qed.

(** C7 (as amended).  When the upstream fetch fails with a non-success
    status other than 429 and 418, with a malformed body or with an
    exception, [fetchBinanceDepth] returns null and leaves the rate-limit
    records and the cache as they were.  Only on 429 or 418 does it double
    the symbol's back-off, capped at [MAX_BACKOFF]; it returns null there
    too. *)
Theorem plain_failure_keeps_backoff
    (symbol : string) (limit now : Z) (r : Server.FetchResult) (st : Server.State) :
  (plainFailure r -> Server.fetchBinanceDepth symbol limit now r st = (None, st))
  /\ (forall status,
        r = Server.NotOk status -> status = 429 \/ status = 418 ->
        fst (Server.fetchBinanceDepth symbol limit now r st) = None
        /\ Server.backoffMs
             (Server.rateOf symbol (snd (Server.fetchBinanceDepth symbol limit now r st)))
           = Z.min (Server.backoffMs (Server.rateOf symbol st) * 2) 30000
        /\ Server.lastRequest
             (Server.rateOf symbol (snd (Server.fetchBinanceDepth symbol limit now r st)))
           = Server.lastRequest (Server.rateOf symbol st)
        /\ Server.depthCache (snd (Server.fetchBinanceDepth symbol limit now r st))
           = Server.depthCache st).
Proof.
  split.
  - destruct r as [status|d|]; simpl; [| |reflexivity].
    + intros [H429 H418].
      apply Z.eqb_neq in H429, H418. now rewrite H429, H418.
    + now intros ->.
  - intros status -> Hst. simpl.
    assert (Hc : (status =? 429) || (status =? 418) = true)
      by (destruct Hst as [-> | ->]; reflexivity).
    rewrite Hc. simpl.
    assert (Hnew : forall rs,
              Server.rateOf symbol
                (Server.mkState (Server.depthCache st)
                   (<[symbol := rs]> (Server.rateLimitState st))) = rs).
    { intros rs. unfold Server.rateOf. simpl. now rewrite lookup_insert_eq. }
    rewrite !Hnew. simpl. auto.
Qed.

Lemma plain_failure_keeps_backoff_witness :
  plainFailure (Server.NotOk 500)
  /\ Server.fetchBinanceDepth "BTCUSDT" 1000 50 (Server.NotOk 500) cached_proxy
     = (None, cached_proxy).
Proof.
  assert (Hplain : plainFailure (Server.NotOk 500))
    by (split; discriminate).
  destruct (plain_failure_keeps_backoff "BTCUSDT" 1000 50 (Server.NotOk 500)
              cached_proxy) as (H & _).
  split; [exact Hplain | exact (H Hplain)].
Defined.

(** C7 as stated fails: after a 500, a malformed body or an exception the
    back-off of the symbol is still 2000, while a 429 takes it to 4000. *)
Lemma plain_failure_does_not_double :
  Server.backoffMs (Server.rateOf "BTCUSDT" Server.initial) = 2000
  /\ Server.fetchBinanceDepth "BTCUSDT" 1000 10 (Server.NotOk 500) Server.initial
     = (None, Server.initial)
  /\ Server.fetchBinanceDepth "BTCUSDT" 1000 10
       (Server.Json (mkPayload None (Some []) (Some []))) Server.initial
     = (None, Server.initial)
  /\ Server.fetchBinanceDepth "BTCUSDT" 1000 10 Server.Throws Server.initial
     = (None, Server.initial)
  /\ Server.backoffMs
       (Server.rateOf "BTCUSDT"
          (snd (Server.fetchBinanceDepth "BTCUSDT" 1000 10 (Server.NotOk 429)
                  Server.initial))) = 4000
  /\ Server.backoffMs
       (Server.rateOf "BTCUSDT"
          (snd (Server.fetchBinanceDepth "BTCUSDT" 1000 10 (Server.NotOk 500)
                  Server.initial))) <> Z.min (2000 * 2) 30000.
Proof.
  repeat split. vm_compute. discriminate.
Qed.

Lemma slice0_whole {A} (n : Z) (l : list A) :
  Z.of_nat (length l) <= n -> Js.slice0 n l = l.
Proof.
  intros Hlen. unfold Js.slice0.
  destruct (Z.leb_spec 0 n) as [Hn|Hn]; [|lia].
  apply firstn_all2. lia.
Qed.

Lemma limitOf_zero : Server.limitOf (Some "0"%string) = 1000.
Proof. reflexivity. Qed.

Lemma limitOf_absent : Server.limitOf None = 1000.
Proof. reflexivity. Qed.

(** C8 (as amended).  A request with [limit=0] is served as a request with
    no limit at all: the limit becomes 1000.  Whenever it is answered with
    a snapshot, the answer carries the id of that snapshot (the cached one
    or the one just fetched) and the first 1000 levels of each side, that
    is all of them when the snapshot has at most 1000. *)
Theorem zero_limit_is_default_limit
    (symbolParam : string) (now : Z) (r : Server.FetchResult) (st : Server.State) :
  Server.limitOf (Some "0"%string) = 1000
  /\ Server.depthHandler symbolParam (Some "0"%string) now r st
     = Server.depthHandler symbolParam None now r st
  /\ (forall id bs az at' src,
        fst (Server.depthHandler symbolParam (Some "0"%string) now r st)
        = Server.Ok200 id bs az at' src ->
        exists c,
          (Server.depthCache st !! Js.toUpperCase symbolParam = Some c
           \/ fst (Server.fetchBinanceDepth (Js.toUpperCase symbolParam) 1000 now r st)
              = Some c)
          /\ id = Server.lastUpdateId c
          /\ bs = Js.slice0 1000 (Server.bids c)
          /\ az = Js.slice0 1000 (Server.asks c)
          /\ (Z.of_nat (length (Server.bids c)) <= 1000 -> bs = Server.bids c)
          /\ (Z.of_nat (length (Server.asks c)) <= 1000 -> az = Server.asks c)).
Proof.
  split; [reflexivity|]. split.
  - unfold Server.depthHandler. now rewrite limitOf_zero, limitOf_absent.
  - intros id bs az at' src. unfold Server.depthHandler. rewrite limitOf_zero.
    set (symbol := Js.toUpperCase symbolParam).
    assert (Hreply : forall c source,
              Server.reply c 1000 source = Server.Ok200 id bs az at' src ->
              id = Server.lastUpdateId c
              /\ bs = Js.slice0 1000 (Server.bids c)
              /\ az = Js.slice0 1000 (Server.asks c)
              /\ (Z.of_nat (length (Server.bids c)) <= 1000 -> bs = Server.bids c)
              /\ (Z.of_nat (length (Server.asks c)) <= 1000 -> az = Server.asks c)).
    { intros c source [= <- <- <- _ _].
      repeat split; try reflexivity; apply slice0_whole. }
    set (cached := Server.depthCache st !! symbol).
    match goal with
    | |- context [match ?sv with
                  | Some c => (Server.reply c 1000 "cache", st)
                  | None => _
                  end] =>
        assert (Hsv : forall c, sv = Some c -> cached = Some c);
        [|destruct sv as [c0|]]
    end.
    { intros c.
      repeat match goal with
        | |- context [if ?b then _ else _] => destruct b
        | |- context [match cached with _ => _ end] => destruct cached
        end; congruence. }
    + simpl. intros Hresp. exists c0.
      split; [left; now apply Hsv | exact (Hreply _ _ Hresp)].
    + destruct (Server.fetchBinanceDepth symbol 1000 now r st) as [[f|] st'].
      * simpl. intros Hresp. exists f.
        split; [now right | exact (Hreply _ _ Hresp)].
      * destruct cached as [c|]; simpl.
        -- intros Hresp. exists c.
           split; [now left | exact (Hreply _ _ Hresp)].
        -- discriminate.
Qed.

Lemma zero_limit_is_default_limit_witness :
  fst (Server.depthHandler "btcusdt" (Some "0"%string) 20 Server.Throws cached_proxy)
  = Server.Ok200 100 [("10", "1")%string] [("11", "1")%string] 10 "cache"
  /\ exists c,
       Server.depthCache cached_proxy !! "BTCUSDT"%string = Some c
       /\ Server.lastUpdateId c = 100.
Proof.
  split; [reflexivity|].
  destruct (zero_limit_is_default_limit "btcusdt" 20 Server.Throws cached_proxy)
    as (_ & _ & H).
  destruct (H 100 [("10", "1")%string] [("11", "1")%string] 10 "cache"%string eq_refl)
    as (c & [Hc|Hc] & Hid & _).
  - exists c. split; [exact Hc | now rewrite <- Hid].
  - vm_compute in Hc. discriminate Hc.
Defined.

(** C8 as stated fails: with [limit=0] the fetched snapshot comes back with
    its levels, and so does the cached one. *)
Lemma zero_limit_returns_levels :
  Js.parseInt "0" = Some 0
  /\ fst (Server.depthHandler "btcusdt" (Some "0"%string) 10
            (Server.Json snapshot100) Server.initial)
     = Server.Ok200 100 [("10", "1")%string] [("11", "1")%string] 10 "binance"
  /\ fst (Server.depthHandler "btcusdt" (Some "0"%string) 20
            Server.Throws cached_proxy)
     = Server.Ok200 100 [("10", "1")%string] [("11", "1")%string] 10 "cache".
Proof.
  repeat split.
Qed.

(* ===================================================================== *)
(** ** Further properties of the order-book engine                       *)
(* ===================================================================== *)

Import Notions.

Section BookLookup.

Implicit Types (k p : string) (v : Js.number) (m book : Book).

Lemma map_get_set_eq k v m : map_get k (map_set k v m) = Some v.
Proof.
  induction m as [|[k' v'] m IH]; simpl.
  - now rewrite String.eqb_refl.
  - destruct (String.eqb k k') eqn:Hk; simpl; rewrite ?String.eqb_refl, ?Hk; auto.
Qed.

Lemma map_get_set_ne k k' v m :
  k <> k' -> map_get k' (map_set k v m) = map_get k' m.
Proof.
  intros Hne. induction m as [|[k0 v0] m IH]; simpl.
  - apply String.eqb_neq in Hne. rewrite String.eqb_sym in Hne. now rewrite Hne.
  - destruct (String.eqb k k0) eqn:Hk; simpl.
    + apply String.eqb_eq in Hk. subst k0.
      assert (Hk' : String.eqb k' k = false)
        by (apply String.eqb_neq; congruence).
      now rewrite Hk'.
    + now rewrite IH.
Qed.

Lemma map_get_delete_eq k m : map_get k (map_delete k m) = None.
Proof.
  induction m as [|[k' v'] m IH]; simpl; [reflexivity|].
  destruct (String.eqb k k') eqn:Hk; simpl; rewrite ?Hk; exact IH.
Qed.

Lemma map_get_delete_ne k k' m :
  k <> k' -> map_get k' (map_delete k m) = map_get k' m.
Proof.
  intros Hne. induction m as [|[k0 v0] m IH]; simpl; [reflexivity|].
  destruct (String.eqb k k0) eqn:Hk; simpl.
  - apply String.eqb_eq in Hk. subst k0.
    assert (Hk' : String.eqb k' k = false)
      by (apply String.eqb_neq; congruence).
    now rewrite Hk'.
  - now rewrite IH.
Qed.

End BookLookup.

(** X1.  After [applyUpdate] the quantity read for a price is decided by
    the last update of the diff for that price: absent when that quantity
    is 0, the parsed quantity otherwise; a price the diff does not mention
    reads as before. *)
Theorem applyUpdate_last_update_wins (updates : list Level) (p : string) :
  forall book,
    map_get p (applyUpdate updates book) =
    match lastUpdateFor p updates with
    | Some qty => stored qty
    | None => map_get p book
    end.
Proof.
  induction updates as [|[p' q] rest IH]; intros book; simpl; [reflexivity|].
  rewrite IH. destruct (lastUpdateFor p rest) as [qty|]; [reflexivity|].
  destruct (String.eqb p p') eqn:Hp.
  - apply String.eqb_eq in Hp. subst p'. unfold stored.
    destruct (Js.isZero (Js.parseFloat q)).
    + apply map_get_delete_eq.
    + apply map_get_set_eq.
  - apply String.eqb_neq in Hp.
    destruct (Js.isZero (Js.parseFloat q)).
    + apply map_get_delete_ne. congruence.
    + apply map_get_set_ne. congruence.
Qed.

Section Buffering.

Implicit Types (s : t) (e : DepthEvent) (l : list DepthEvent).

Lemma addToBuffer_buffer e s :
  buffer (addToBuffer e s) =
  (if 2000 <=? Z.of_nat (length (buffer s))
   then drop 200 (buffer s) else buffer s) ++ [e].
Proof. reflexivity. Qed.

Lemma addToBuffer_length e s :
  Z.of_nat (length (buffer s)) <= 2000 ->
  Z.of_nat (length (buffer (addToBuffer e s))) <= 2000.
Proof.
  intros Hlen. rewrite addToBuffer_buffer, length_app. simpl.
  destruct (Z.leb_spec 2000 (Z.of_nat (length (buffer s)))) as [Hfull|Hroom].
  - rewrite length_drop. lia.
  - lia.
Qed.

Lemma processEvent_buffer_length e s :
  Z.of_nat (length (buffer s)) <= 2000 ->
  Z.of_nat (length (buffer (processEvent e s))) <= 2000.
Proof.
  intros Hlen. unfold processEvent.
  set (s1 := if isSynced s && negb (resyncInFlight s)
                && (0 <? Z.of_nat (length (buffer s)))
             then set_buffer [] s else s).
  assert (Hs1 : Z.of_nat (length (buffer s1)) <= 2000).
  { unfold s1. destruct (_ && _); simpl; lia. }
  clearbody s1.
  repeat match goal with
    | |- context [if ?c then _ else _] => destruct c
    end; simpl;
    try exact Hs1; now apply addToBuffer_length.
Qed.

Lemma insert_by_u_perm e l : insert_by_u e l ≡ₚ e :: l.
Proof.
  induction l as [|x xs IH]; simpl; [reflexivity|].
  destruct (ev_u x <? ev_u e); [|reflexivity].
  rewrite IH. apply Permutation_swap.
Qed.

Lemma sort_by_u_perm l : sort_by_u l ≡ₚ l.
Proof.
  induction l as [|x xs IH]; simpl; [reflexivity|].
  unfold sort_by_u in *. simpl. now rewrite insert_by_u_perm, IH.
Qed.

Lemma insert_by_u_sorted e l :
  StronglySorted (fun a b => ev_u a <= ev_u b) l ->
  StronglySorted (fun a b => ev_u a <= ev_u b) (insert_by_u e l).
Proof.
  induction 1 as [|x xs Hsorted IH Hx]; simpl.
  - repeat constructor.
  - destruct (Z.ltb_spec (ev_u x) (ev_u e)) as [Hlt|Hge].
    + constructor; [exact IH|].
      rewrite insert_by_u_perm. constructor; [lia | exact Hx].
    + constructor; [now constructor|].
      constructor; [exact Hge|].
      eapply Forall_impl; [exact Hx|]. simpl. intros y Hy. lia.
Qed.

Lemma sort_by_u_sorted l :
  StronglySorted (fun a b => ev_u a <= ev_u b) (sort_by_u l).
Proof.
  induction l as [|x xs IH]; [constructor|].
  unfold sort_by_u in *. simpl. now apply insert_by_u_sorted.
Qed.

Lemma insert_by_u_stable (k : Z) e l :
  List.filter (fun x => ev_u x =? k) (insert_by_u e l)
  = List.filter (fun x => ev_u x =? k) (e :: l).
Proof.
  induction l as [|x xs IH]; [reflexivity|]. simpl in *.
  destruct (Z.ltb_spec (ev_u x) (ev_u e)) as [Hlt|Hge]; [|reflexivity].
  simpl. rewrite IH.
  destruct (Z.eqb_spec (ev_u x) k) as [Hx|Hx];
    destruct (Z.eqb_spec (ev_u e) k) as [He|He]; try reflexivity; lia.
Qed.

End Buffering.

(** X2.  [addToBuffer] puts the event last.  A buffer holding fewer than
    2000 events just grows by one; a buffer holding 2000 first loses its
    200 oldest events, so 1801 remain; the buffer never exceeds 2000. *)
Theorem addToBuffer_keeps_bound (e : DepthEvent) (s : t) :
  Z.of_nat (length (buffer s)) <= 2000 ->
  Z.of_nat (length (buffer (addToBuffer e s))) <= 2000
  /\ last (buffer (addToBuffer e s)) = Some e
  /\ (Z.of_nat (length (buffer s)) < 2000 ->
      buffer (addToBuffer e s) = buffer s ++ [e])
  /\ (Z.of_nat (length (buffer s)) = 2000 ->
      buffer (addToBuffer e s) = drop 200 (buffer s) ++ [e]
      /\ length (buffer (addToBuffer e s)) = 1801%nat).
Proof.
  intros Hlen. split; [now apply addToBuffer_length|].
  rewrite addToBuffer_buffer. split; [apply last_snoc|]. split.
  - intros Hroom. apply Z.leb_gt in Hroom. now rewrite Hroom.
  - intros Hfull.
    assert (Hc : (2000 <=? Z.of_nat (length (buffer s))) = true)
      by (apply Z.leb_le; lia).
    rewrite Hc. split; [reflexivity|].
    rewrite length_app, length_drop. simpl. lia.
Qed.

Lemma addToBuffer_keeps_bound_witness :
  Z.of_nat (length (buffer gapped500)) <= 2000
  /\ buffer (addToBuffer diff506 gapped500) = [diff503; diff506].
Proof.
  assert (Hlen : Z.of_nat (length (buffer gapped500)) <= 2000)
    by (vm_compute; discriminate).
  destruct (addToBuffer_keeps_bound diff506 gapped500 Hlen) as (_ & _ & Happ & _).
  split; [exact Hlen|]. apply Happ. reflexivity.
Defined.

(** X3.  Whatever happens to an engine, its buffer never holds more than
    [MAX_BUFFER_SIZE] = 2000 events. *)
Theorem buffer_never_exceeds_limit (s : t) :
  reachable anytime s -> Z.of_nat (length (buffer s)) <= MAX_BUFFER_SIZE.
Proof.
  revert s.
  apply (reachable_invariant anytime
           (fun s => Z.of_nat (length (buffer s)) <= MAX_BUFFER_SIZE));
    [simpl; unfold MAX_BUFFER_SIZE; lia|].
  unfold MAX_BUFFER_SIZE.
  intros op s IH _. destruct op as [e|now|o|now]; simpl.
  - now apply processEvent_buffer_length.
  - unfold initSnapshot_start. destruct (resyncInFlight s); exact IH.
  - unfold initSnapshot_finish.
    destruct o as [status| |d|]; simpl; try exact IH.
    destruct (validPayload d) as [[[n bs] az]|]; simpl; [|exact IH].
    pose proof (replayBuffer_buffer (set_book (loadLevels bs) (loadLevels az) n s)) as Hbuf.
    destruct (replayBuffer _) as [[] s1]; simpl in *; rewrite Hbuf; simpl; lia.
  - unfold retryTimer_start, initSnapshot_start. simpl.
    destruct (resyncInFlight s); exact IH.
Qed.

Lemma buffer_never_exceeds_limit_witness :
  reachable anytime leaked /\ Z.of_nat (length (buffer leaked)) <= MAX_BUFFER_SIZE.
Proof.
  assert (Hs : reachable anytime leaked)
    by (exists leaking_history; reflexivity).
  split; [exact Hs | exact (buffer_never_exceeds_limit leaked Hs)].
Defined.

(** X4.  The sort at the head of [replayBuffer] rearranges the buffered
    events without losing or adding any, puts them in ascending order of
    [u], and keeps events with equal [u] in their order of arrival. *)
Theorem sort_by_u_sorts_stably (l : list DepthEvent) :
  sort_by_u l ≡ₚ l
  /\ StronglySorted (fun a b => ev_u a <= ev_u b) (sort_by_u l)
  /\ (forall k, List.filter (fun x => ev_u x =? k) (sort_by_u l)
                = List.filter (fun x => ev_u x =? k) l).
Proof.
  split; [apply sort_by_u_perm|]. split; [apply sort_by_u_sorted|].
  intros k. induction l as [|x xs IH]; [reflexivity|].
  unfold sort_by_u in *. simpl foldr. rewrite insert_by_u_stable.
  simpl. now rewrite IH.
Qed.

Section ReplayStart.

Implicit Types (s : t) (e : DepthEvent) (l evs : list DepthEvent).

Lemma findStart_None last l : forall i,
  findStart last i l = None <-> Forall (fun e => ~ straddles last e) l.
Proof.
  unfold straddles.
  induction l as [|e rest IH]; intros i; simpl.
  - split; [constructor | reflexivity].
  - destruct (Z.leb_spec (ev_u e) last) as [Hold|Hnew].
    + rewrite IH. split.
      * intros Hrest. constructor; [lia | exact Hrest].
      * now inversion 1.
    + destruct (Z.leb_spec (ev_U e) (last + 1)) as [HU|HU];
        destruct (Z.leb_spec (last + 1) (ev_u e)) as [Hu|Hu]; simpl;
        try (rewrite IH; split;
             [intros Hrest; constructor; [lia | exact Hrest] | now inversion 1]).
      split; [discriminate|]. inversion 1 as [|? ? Hhead _]. lia.
Qed.

Lemma findStart_Some last l : forall i j,
  findStart last i l = Some j ->
  exists k e, j = (i + k)%nat /\ l !! k = Some e /\ straddles last e.
Proof.
  unfold straddles.
  induction l as [|e rest IH]; intros i j; simpl; [discriminate|].
  assert (Hrec : findStart last (S i) rest = Some j ->
                 exists k e0, j = (i + k)%nat /\ (e :: rest) !! k = Some e0
                              /\ ev_U e0 <= last + 1 <= ev_u e0).
  { intros Hf. destruct (IH _ _ Hf) as (k & e0 & -> & Hk & Hs).
    exists (S k), e0. split; [lia | now split]. }
  destruct (ev_u e <=? last); [exact Hrec|].
  destruct (Z.leb_spec (ev_U e) (last + 1)) as [HU|HU];
    destruct (Z.leb_spec (last + 1) (ev_u e)) as [Hu|Hu]; simpl;
    try exact Hrec.
  intros [= <-]. exists 0%nat, e. split; [lia | now split].
Qed.

Lemma runningId_ge last evs :
  last <= runningId last evs
  /\ (forall e, e ∈ evs -> ev_u e <= runningId last evs).
Proof.
  revert last. induction evs as [|x xs IH]; intros last.
  - split; [unfold runningId; simpl; lia | intros e He; inversion He].
  - rewrite runningId_cons. destruct (IH (Z.max last (ev_u x))) as [Hlast Hall].
    split; [lia|]. intros e He. apply elem_of_cons in He as [->|He]; [lia|].
    now apply Hall.
Qed.

Lemma runningId_attained last evs :
  runningId last evs = last \/ exists e, e ∈ evs /\ runningId last evs = ev_u e.
Proof.
  revert last. induction evs as [|x xs IH]; intros last; [now left|].
  rewrite runningId_cons.
  destruct (IH (Z.max last (ev_u x))) as [Heq|(e & He & Heq)].
  - rewrite Heq. destruct (Z.max_spec last (ev_u x)) as [[_ ->]|[_ ->]].
    + right. exists x. split; [left | reflexivity].
    + now left.
  - right. exists e. split; [now right | exact Heq].
Qed.

Lemma replayLoop_id evs : forall s,
  lastUpdateId s <= lastUpdateId (snd (replayLoop evs s))
  /\ (fst (replayLoop evs s) = true ->
      lastUpdateId (snd (replayLoop evs s)) = runningId (lastUpdateId s) evs).
Proof.
  induction evs as [|e rest IH]; intros s; simpl.
  - split; [lia | reflexivity].
  - destruct (Z.ltb_spec (lastUpdateId s + 1) (ev_U e)) as [Hgap|Hcont]; simpl.
    + split; [lia | discriminate].
    + change (fold_left _ rest ?x) with (runningId x rest).
      destruct (Z.ltb_spec (lastUpdateId s) (ev_u e)) as [Hnew|Hold].
      * destruct (IH (applyEvent e s)) as [Hle Heq]. simpl in Hle, Heq.
        split; [lia|]. intros Hok. rewrite (Heq Hok). f_equal. lia.
      * destruct (IH s) as [Hle Heq].
        split; [lia|]. intros Hok. rewrite (Heq Hok). f_equal. lia.
Qed.

Lemma findStart_app last pre e0 post : forall i,
  Forall (fun e => ~ straddles last e) pre -> straddles last e0 ->
  findStart last i (pre ++ e0 :: post) = Some (i + length pre)%nat.
Proof.
  unfold straddles. induction pre as [|x pre IH]; intros i Hpre [HU Hu]; simpl.
  - destruct (Z.leb_spec (ev_u e0) last) as [Hold|_]; [lia|].
    destruct (Z.leb_spec (ev_U e0) (last + 1)) as [_|Hgap]; [|lia].
    destruct (Z.leb_spec (last + 1) (ev_u e0)) as [_|Hold]; [|lia].
    simpl. f_equal. lia.
  - inversion Hpre as [|? ? Hx Hrest]; subst.
    rewrite (IH (S i) Hrest (conj HU Hu)).
    replace (S i + length pre)%nat with (i + S (length pre))%nat by lia.
    destruct (ev_u x <=? last); [reflexivity|].
    destruct (Z.leb_spec (ev_U x) (last + 1));
      destruct (Z.leb_spec (last + 1) (ev_u x)); simpl; try reflexivity.
    exfalso. apply Hx. lia.
Qed.

Lemma findStart_split last l : forall i j,
  findStart last i l = Some j ->
  exists pre e0 post,
    l = pre ++ e0 :: post /\ j = (i + length pre)%nat
    /\ Forall (fun e => ~ straddles last e) pre /\ straddles last e0.
Proof.
  induction l as [|x rest IH]; intros i j; simpl; [discriminate|].
  assert (Hrec : ~ straddles last x ->
                 findStart last (S i) rest = Some j ->
                 exists pre e0 post,
                   x :: rest = pre ++ e0 :: post /\ j = (i + length pre)%nat
                   /\ Forall (fun e => ~ straddles last e) pre
                   /\ straddles last e0).
  { intros Hx Hf. destruct (IH _ _ Hf) as (pre & e0 & post & -> & -> & Hpre & He0).
    exists (x :: pre), e0, post. simpl. split; [reflexivity|].
    split; [lia|]. split; [now constructor | exact He0]. }
  unfold straddles in *.
  destruct (Z.leb_spec (ev_u x) last); [apply Hrec; lia|].
  destruct (Z.leb_spec (ev_U x) (last + 1));
    destruct (Z.leb_spec (last + 1) (ev_u x)); simpl; try (apply Hrec; lia).
  intros [= <-]. exists [], x, rest. simpl.
  split; [reflexivity|]. split; [lia|]. split; [constructor | lia].
Qed.

(** [replayBuffer] does what the description of the replay says ... *)
Lemma replayBuffer_refines s : ReplayBuffer s (replayBuffer s).
Proof.
  destruct (buffer s) as [|b0 b] eqn:Hb.
  - unfold replayBuffer. rewrite Hb. now apply replay_nothing.
  - assert (Hne : buffer s <> []) by congruence.
    destruct (findStart (lastUpdateId s) 0 (sort_by_u (buffer s))) as [j|] eqn:Hfind.
    + rewrite (replayBuffer_loop s j Hne Hfind).
      destruct (findStart_split _ _ _ _ Hfind)
        as (pre & e0 & post & Hsorted & -> & Hpre & He0).
      assert (Hdrop : drop (0 + length pre) (sort_by_u (buffer s)) = e0 :: post)
        by (rewrite Hsorted; apply drop_app_length).
      rewrite Hdrop. apply (replay_from s pre e0 post _ Hsorted Hpre He0).
      apply replayLoop_refines.
    + unfold replayBuffer. rewrite Hb. rewrite <- Hb, Hfind.
      apply replay_no_start; [exact Hne|]. now apply (findStart_None _ _ 0%nat).
Qed.

(** ... and nothing else. *)
Lemma ReplayBuffer_functional s r : ReplayBuffer s r -> r = replayBuffer s.
Proof.
  intros [Hb | Hne Hnone | pre e0 post r' Hsorted Hpre He0 Hreplay].
  - unfold replayBuffer. now rewrite Hb.
  - apply (findStart_None _ _ 0%nat) in Hnone.
    unfold replayBuffer. destruct (buffer s) as [|b0 b] eqn:Hb; [congruence|].
    now rewrite Hnone.
  - assert (Hne : buffer s <> []).
    { intros Hb. rewrite Hb in Hsorted. now destruct pre. }
    assert (Hfind : findStart (lastUpdateId s) 0 (sort_by_u (buffer s))
                    = Some (0 + length pre)%nat)
      by (rewrite Hsorted; now apply findStart_app).
    rewrite (replayBuffer_loop s _ Hne Hfind).
    assert (Hdrop : drop (0 + length pre) (sort_by_u (buffer s)) = e0 :: post)
      by (rewrite Hsorted; apply drop_app_length).
    rewrite Hdrop. now apply Replay_functional.
Qed.

(** The whole replay fails exactly when events are buffered and either none
    of them straddles [lastUpdateId + 1], or, from the first that does,
    some event starts beyond the id reached just before it, plus one. *)
Lemma replayBuffer_fails_iff s :
  fst (replayBuffer s) = false <->
  buffer s <> []
  /\ (Forall (fun e => ~ straddles (lastUpdateId s) e) (sort_by_u (buffer s))
      \/ exists pre e0 post i e,
           sort_by_u (buffer s) = pre ++ e0 :: post
           /\ Forall (fun e => ~ straddles (lastUpdateId s) e) pre
           /\ straddles (lastUpdateId s) e0
           /\ (e0 :: post) !! i = Some e
           /\ runningId (lastUpdateId s) (take i (e0 :: post)) + 1 < ev_U e).
Proof.
  split.
  - intros Hfail.
    assert (Hne : buffer s <> []).
    { intros Hb. unfold replayBuffer in Hfail. rewrite Hb in Hfail.
      discriminate Hfail. }
    split; [exact Hne|].
    destruct (findStart (lastUpdateId s) 0 (sort_by_u (buffer s))) as [j|] eqn:Hfind.
    + right. rewrite (replayBuffer_loop s j Hne Hfind) in Hfail.
      destruct (findStart_split _ _ _ _ Hfind)
        as (pre & e0 & post & Hsorted & -> & Hpre & He0).
      assert (Hdrop : drop (0 + length pre) (sort_by_u (buffer s)) = e0 :: post)
        by (rewrite Hsorted; apply drop_app_length).
      rewrite Hdrop in Hfail. apply replayLoop_fails_iff in Hfail.
      destruct Hfail as (i & e & Hi & Hlt).
      exists pre, e0, post, i, e.
      exact (conj Hsorted (conj Hpre (conj He0 (conj Hi Hlt)))).
    + left. now apply (findStart_None _ _ 0%nat).
  - intros [Hne [Hnone|(pre & e0 & post & i & e & Hsorted & Hpre & He0 & Hi & Hlt)]].
    + apply (findStart_None _ _ 0%nat) in Hnone.
      unfold replayBuffer. destruct (buffer s) as [|b0 b] eqn:Hb; [congruence|].
      now rewrite Hnone.
    + assert (Hfind : findStart (lastUpdateId s) 0 (sort_by_u (buffer s))
                      = Some (0 + length pre)%nat)
        by (rewrite Hsorted; now apply findStart_app).
      rewrite (replayBuffer_loop s _ Hne Hfind).
      assert (Hdrop : drop (0 + length pre) (sort_by_u (buffer s)) = e0 :: post)
        by (rewrite Hsorted; apply drop_app_length).
      rewrite Hdrop. apply replayLoop_fails_iff. now exists i, e.
Qed.

End ReplayStart.

(** C1 (as amended).  [replayBuffer] takes the buffered events in ascending
    order of [u], passes over those before the first one that straddles
    [lastUpdateId + 1], and replays from that one to the end of the
    buffer.  In the replay each event is first checked for a gap: when its
    [U] exceeds the current [lastUpdateId + 1] the replay fails at once,
    with the buffer cleared; an event that passes this check is applied
    when its [u] exceeds the current [lastUpdateId] and is otherwise passed
    over, the replay going on with the next event.  So [replayBuffer]
    fails exactly when events are buffered and either none straddles
    [lastUpdateId + 1] or, from the first that does, some event starts
    beyond the id reached before it plus one.  When [replayBuffer] fails
    inside [initSnapshot], the engine ends unsynced with an empty buffer,
    [needsResync] set and the retry timer armed. *)
Theorem replay_fails_on_gap_and_skips_stale (s : t) :
  ReplayBuffer s (replayBuffer s)
  /\ (forall r, ReplayBuffer s r -> r = replayBuffer s)
  /\ sort_by_u (buffer s) ≡ₚ buffer s
  /\ StronglySorted (fun a b => ev_u a <= ev_u b) (sort_by_u (buffer s))
  /\ buffer (snd (replayBuffer s)) = []
  /\ (fst (replayBuffer s) = false <->
      buffer s <> []
      /\ (Forall (fun e => ~ straddles (lastUpdateId s) e) (sort_by_u (buffer s))
          \/ exists pre e0 post i e,
               sort_by_u (buffer s) = pre ++ e0 :: post
               /\ Forall (fun e => ~ straddles (lastUpdateId s) e) pre
               /\ straddles (lastUpdateId s) e0
               /\ (e0 :: post) !! i = Some e
               /\ runningId (lastUpdateId s) (take i (e0 :: post)) + 1 < ev_U e))
  /\ (forall d n bs az,
        validPayload d = Some (n, bs, az) ->
        fst (replayBuffer (set_book (loadLevels bs) (loadLevels az) n s)) = false ->
        let s' := initSnapshot_finish (Body d) s in
        buffer s' = [] /\ isSynced s' = false /\ needsResync s' = true
        /\ retryScheduled s' = true /\ resyncInFlight s' = false).
Proof.
  split; [apply replayBuffer_refines|].
  split; [apply ReplayBuffer_functional|].
  split; [apply sort_by_u_perm|].
  split; [apply sort_by_u_sorted|].
  split; [apply replayBuffer_buffer|].
  split; [apply replayBuffer_fails_iff|].
  intros d n bs az Hd Hfail. unfold initSnapshot_finish. rewrite Hd.
  pose proof (replayBuffer_buffer (set_book (loadLevels bs) (loadLevels az) n s)) as Hbuf.
  destruct (replayBuffer _) as [ok s1]. simpl in Hfail, Hbuf. subst ok.
  simpl. auto.
Qed.

(** The statement of C1 at two concrete engines: with 101 and 104 buffered
    on top of a snapshot at 100, the replay starts at 101, applies it and
    fails at 104; with 101 buffered twice, the second copy is passed over
    and the replay succeeds. *)
Lemma replay_fails_on_gap_and_skips_stale_witness :
  replayBuffer gap_in_buffer
  = (false, mk [] [] 101 false [] true 0 true false 2000 false)
  /\ fst (replayBuffer gap_in_buffer) = false
  /\ replayBuffer loaded_with_duplicate = (true, set_buffer [] replay_after_first).
Proof.
  destruct (replay_fails_on_gap_and_skips_stale gap_in_buffer)
    as (_ & Hgap & _ & _ & _ & Hfails & _).
  destruct (replay_fails_on_gap_and_skips_stale loaded_with_duplicate)
    as (_ & Hstale & _).
  split; [|split].
  - symmetry. apply Hgap.
    apply (replay_from gap_in_buffer [] (mkEvent 101 101 [] [])
             [mkEvent 104 104 [] []]);
      [reflexivity | constructor | unfold straddles; simpl; lia |].
    eapply replay_next; [apply replay_apply; simpl; lia|].
    apply replay_fail. apply replay_gap. simpl. lia.
  - apply Hfails. split; [discriminate|]. right.
    exists [], (mkEvent 101 101 [] []), [mkEvent 104 104 [] []], 1%nat,
           (mkEvent 104 104 [] []).
    split; [reflexivity|]. split; [constructor|].
    split; [unfold straddles; simpl; lia|].
    split; [reflexivity | vm_compute; reflexivity].
  - symmetry. apply Hstale.
    apply (replay_from loaded_with_duplicate [] dup101 [dup101]);
      [reflexivity | constructor | unfold straddles; simpl; lia |].
    eapply replay_next; [apply replay_apply; simpl; lia|].
    eapply replay_next; [apply replay_skip; simpl; lia|].
    apply replay_done.
Defined.


(** X5.  When events are buffered but none of them covers the update id
    right after the snapshot's (none has [U <= lastUpdateId + 1 <= u]), the
    replay fails without touching the book: it returns false and only
    empties the buffer.  Stale buffers and buffers that start beyond the
    snapshot are both of this kind. *)
Theorem replay_needs_straddling_event (s : t) :
  buffer s <> [] ->
  (forall e, e ∈ buffer s -> ~ straddles (lastUpdateId s) e) ->
  replayBuffer s = (false, set_buffer [] s)
  /\ bids (snd (replayBuffer s)) = bids s
  /\ asks (snd (replayBuffer s)) = asks s
  /\ lastUpdateId (snd (replayBuffer s)) = lastUpdateId s.
Proof.
  intros Hne Hnone.
  assert (Hr : replayBuffer s = (false, set_buffer [] s)).
  { unfold replayBuffer. destruct (buffer s) as [|e0 b] eqn:Hb; [congruence|].
    assert (Hfind : findStart (lastUpdateId s) 0 (sort_by_u (e0 :: b)) = None).
    { apply findStart_None. apply Forall_forall. intros e He.
      apply Hnone. now rewrite <- (sort_by_u_perm (e0 :: b)). }
    now rewrite Hfind. }
  rewrite Hr. now repeat split.
Qed.

Lemma replay_needs_straddling_event_witness :
  (buffer too_new <> []
   /\ forall e, e ∈ buffer too_new -> ~ straddles (lastUpdateId too_new) e)
  /\ replayBuffer too_new = (false, set_buffer [] too_new).
Proof.
  assert (Hne : buffer too_new <> []) by discriminate.
  assert (Hnone : forall e, e ∈ buffer too_new ->
                            ~ straddles (lastUpdateId too_new) e).
  { intros e He. unfold straddles. simpl in He.
    repeat (apply elem_of_cons in He as [->|He]); simpl; try lia.
    inversion He. }
  split; [now split|].
  exact (proj1 (replay_needs_straddling_event too_new Hne Hnone)).
Defined.

(** X6.  [replayBuffer] never moves [lastUpdateId] backwards.  When it
    succeeds, the engine ends at or beyond the final update id of every
    buffered event, and when the buffer was not empty it ends exactly at
    the final update id of one of them: the highest one. *)
Theorem replay_reaches_highest_buffered_id (s : t) :
  lastUpdateId s <= lastUpdateId (snd (replayBuffer s))
  /\ (fst (replayBuffer s) = true ->
      (forall e, e ∈ buffer s -> ev_u e <= lastUpdateId (snd (replayBuffer s)))
      /\ (buffer s <> [] ->
          exists e, e ∈ buffer s
                    /\ lastUpdateId (snd (replayBuffer s)) = ev_u e)).
Proof.
  unfold replayBuffer. destruct (buffer s) as [|e0 b] eqn:Hb.
  - simpl. split; [lia|]. intros _. split; [|congruence].
    intros e He. inversion He.
  - pose proof (sort_by_u_perm (e0 :: b)) as Hperm.
    pose proof (sort_by_u_sorted (e0 :: b)) as Hsorted.
    set (sorted := sort_by_u (e0 :: b)) in *. clearbody sorted.
    destruct (findStart (lastUpdateId s) 0 sorted) as [i|] eqn:Hfind;
      [|simpl; split; [lia | discriminate]].
    destruct (findStart_Some _ _ _ _ Hfind) as (k & e1 & -> & Hk & HU & Hu).
    change (0 + k)%nat with k.
    destruct (replayLoop_id (drop k sorted) (set_buffer sorted s)) as [Hle Heq].
    change (lastUpdateId (set_buffer sorted s)) with (lastUpdateId s) in Hle, Heq.
    split; [exact Hle|]. intros Hok. rewrite (Heq Hok).
    destruct (runningId_ge (lastUpdateId s) (drop k sorted)) as [_ Hall].
    assert (He1 : e1 ∈ drop k sorted).
    { apply list_elem_of_lookup. exists 0%nat. now rewrite lookup_drop, Nat.add_0_r. }
    split.
    + intros e He.
      assert (Hin : e ∈ take k sorted ++ drop k sorted)
        by (now rewrite take_drop, Hperm).
      apply elem_of_app in Hin as [Hpre|Hsuf]; [|now apply Hall].
      rewrite <- (take_drop k sorted) in Hsorted.
      pose proof (StronglySorted_app_1_elem_of _ _ _ _ _ Hsorted Hpre He1) as Hord.
      simpl in Hord. specialize (Hall e1 He1). lia.
    + intros _.
      destruct (runningId_attained (lastUpdateId s) (drop k sorted))
        as [Hsame|(e & He & Heqe)].
      * specialize (Hall e1 He1). lia.
      * exists e. split; [|exact Heqe].
        rewrite <- Hperm, <- (take_drop k sorted). apply elem_of_app. now right.
Qed.

Lemma replay_reaches_highest_buffered_id_witness :
  fst (replayBuffer out_of_order) = true
  /\ lastUpdateId (snd (replayBuffer out_of_order)) = 102
  /\ forall e, e ∈ buffer out_of_order ->
               ev_u e <= lastUpdateId (snd (replayBuffer out_of_order)).
Proof.
  assert (Hok : fst (replayBuffer out_of_order) = true) by reflexivity.
  destruct (replay_reaches_highest_buffered_id out_of_order) as (_ & H).
  destruct (H Hok) as (Hall & _).
  split; [exact Hok|]. split; [reflexivity | exact Hall].
Defined.

(** X7.  A snapshot attempt that fails (HTTP error, unreadable or
    malformed body, network error) leaves bids, asks, [lastUpdateId],
    [isSynced], the buffer and [degraded] as they were; it doubles the
    snapshot back-off up to 30000, arms the retry timer, ends the flight,
    and never clears [needsResync]. *)
Theorem failed_snapshot_keeps_book (o : Outcome) (s : t) :
  fetchFailed o ->
  bids (initSnapshot_finish o s) = bids s
  /\ asks (initSnapshot_finish o s) = asks s
  /\ lastUpdateId (initSnapshot_finish o s) = lastUpdateId s
  /\ isSynced (initSnapshot_finish o s) = isSynced s
  /\ buffer (initSnapshot_finish o s) = buffer s
  /\ degraded (initSnapshot_finish o s) = degraded s
  /\ snapshotBackoffMs (initSnapshot_finish o s)
     = Z.min (snapshotBackoffMs s * 2) 30000
  /\ retryScheduled (initSnapshot_finish o s) = true
  /\ resyncInFlight (initSnapshot_finish o s) = false
  /\ (needsResync s = true -> needsResync (initSnapshot_finish o s) = true).
Proof.
  intros Hfail. unfold initSnapshot_finish.
  destruct o as [status| |d|]; simpl in *; rewrite ?Hfail; simpl;
    repeat split; auto.
Qed.

Lemma failed_snapshot_keeps_book_witness :
  fetchFailed (HttpError 418)
  /\ bids (initSnapshot_finish (HttpError 418) synced100) = bids synced100
  /\ snapshotBackoffMs (initSnapshot_finish (HttpError 418) synced100) = 4000.
Proof.
  assert (Hfail : fetchFailed (HttpError 418)) by exact I.
  destruct (failed_snapshot_keeps_book (HttpError 418) synced100 Hfail)
    as (Hb & _ & _ & _ & _ & _ & Hbo & _).
  split; [exact Hfail|]. split; [exact Hb | exact Hbo].
Defined.

(** X8.  Buffer, then fuse.  A diff that arrives while a snapshot is in
    flight on an engine with an empty buffer, and that covers the update
    id right after the one of the snapshot that then arrives, is applied
    on top of the snapshot's levels: the engine ends synced at the diff's
    [u], out of degraded mode, with an empty buffer, [needsResync] clear
    and the back-off back at 2000. *)
Theorem buffered_diff_is_fused (s : t) (e : DepthEvent) (d : Payload)
    (n : Z) (bs az : list Level) :
  resyncInFlight s = true -> buffer s = [] ->
  validPayload d = Some (n, bs, az) ->
  straddles n e ->
  bids (initSnapshot_finish (Body d) (processEvent e s))
  = applyUpdate (ev_b e) (loadLevels bs)
  /\ asks (initSnapshot_finish (Body d) (processEvent e s))
     = applyUpdate (ev_a e) (loadLevels az)
  /\ lastUpdateId (initSnapshot_finish (Body d) (processEvent e s)) = ev_u e
  /\ isSynced (initSnapshot_finish (Body d) (processEvent e s)) = true
  /\ needsResync (initSnapshot_finish (Body d) (processEvent e s)) = false
  /\ degraded (initSnapshot_finish (Body d) (processEvent e s)) = false
  /\ buffer (initSnapshot_finish (Body d) (processEvent e s)) = []
  /\ resyncInFlight (initSnapshot_finish (Body d) (processEvent e s)) = false
  /\ snapshotBackoffMs (initSnapshot_finish (Body d) (processEvent e s)) = 2000.
Proof.
  intros Hf Hb Hd [HU Hu].
  assert (Hp : processEvent e s = set_buffer [e] s).
  { unfold processEvent. rewrite Hf, andb_false_r. simpl. rewrite Hf.
    unfold addToBuffer. rewrite Hb. reflexivity. }
  rewrite Hp. unfold initSnapshot_finish. rewrite Hd.
  unfold replayBuffer. simpl.
  assert (H1 : (ev_u e <=? n) = false) by (apply Z.leb_gt; lia).
  assert (H2 : (ev_U e <=? n + 1) = true) by (apply Z.leb_le; lia).
  assert (H3 : (n + 1 <=? ev_u e) = true) by (apply Z.leb_le; lia).
  assert (H4 : (n + 1 <? ev_U e) = false) by (apply Z.ltb_ge; lia).
  assert (H5 : (n <? ev_u e) = true) by (apply Z.ltb_lt; lia).
  rewrite H1, H2, H3. simpl. rewrite H4, H5. simpl. now repeat split.
Qed.

Lemma buffered_diff_is_fused_witness :
  (resyncInFlight first_fetch_pending = true
   /\ buffer first_fetch_pending = []
   /\ validPayload snapshot100 = Some (100, [("10", "1")], [("11", "1")])%string
   /\ straddles 100 diff101)
  /\ lastUpdateId
       (initSnapshot_finish (Body snapshot100)
          (processEvent diff101 first_fetch_pending)) = 101
  /\ isSynced
       (initSnapshot_finish (Body snapshot100)
          (processEvent diff101 first_fetch_pending)) = true.
Proof.
  assert (Hs : straddles 100 diff101) by (unfold straddles; simpl; lia).
  destruct (buffered_diff_is_fused first_fetch_pending diff101 snapshot100
              100 _ _ eq_refl eq_refl eq_refl Hs)
    as (_ & _ & Hid & Hsync & _).
  split; [now repeat split|]. split; [exact Hid | exact Hsync].
Defined.

(** X9.  On a synced engine [processEvent] keeps the engine synced and
    never moves [lastUpdateId] backwards, and it changes bids, asks or
    [lastUpdateId] only by applying the diff, which it does only when no
    snapshot is in flight, the diff goes beyond [lastUpdateId] and starts
    no later than [lastUpdateId + 1]. *)
Theorem synced_book_moves_only_forward (s : t) (e : DepthEvent) :
  isSynced s = true ->
  isSynced (processEvent e s) = true
  /\ lastUpdateId s <= lastUpdateId (processEvent e s)
  /\ ((bids (processEvent e s) <> bids s \/ asks (processEvent e s) <> asks s
       \/ lastUpdateId (processEvent e s) <> lastUpdateId s) ->
      resyncInFlight s = false
      /\ lastUpdateId s < ev_u e
      /\ ev_U e <= lastUpdateId s + 1
      /\ processEvent e s = applyEvent e (set_buffer [] s)).
Proof.
  intros Hs. destruct (resyncInFlight s) eqn:Hf.
  - assert (Hp : processEvent e s = addToBuffer e s).
    { unfold processEvent. rewrite Hs, Hf. simpl. now rewrite Hf. }
    rewrite Hp. simpl. split; [exact Hs|]. split; [lia|].
    intros [H|[H|H]]; congruence.
  - rewrite (processEvent_steady s e Hs Hf).
    destruct (Z.leb_spec (ev_u e) (lastUpdateId s)) as [Hold|Hnew]; simpl.
    + split; [exact Hs|]. split; [lia|]. intros [H|[H|H]]; congruence.
    + destruct (Z.ltb_spec (lastUpdateId s + 1) (ev_U e)) as [Hgap|Hcont]; simpl.
      * split; [exact Hs|]. split; [lia|]. intros [H|[H|H]]; congruence.
      * split; [exact Hs|]. split; [lia|]. intros _. now repeat split.
Qed.

Lemma synced_book_moves_only_forward_witness :
  isSynced synced100 = true
  /\ lastUpdateId synced100 <= lastUpdateId (processEvent diff101 synced100)
  /\ processEvent diff101 synced100 = applyEvent diff101 (set_buffer [] synced100).
Proof.
  destruct (synced_book_moves_only_forward synced100 diff101 eq_refl)
    as (_ & Hle & Hchg).
  split; [reflexivity|]. split; [exact Hle|].
  apply Hchg. right. right. vm_compute. discriminate.
Defined.

(* ===================================================================== *)
(** ** Book reads                                                        *)
(* ===================================================================== *)

Section SortBook.

Variable book : Book.
Variable limit : Z.

Lemma positive_size_is_stored (o : option Js.number) :
  Js.gtZero (Js.orZero (default Js.NaN o)) = true ->
  o = Some (Js.orZero (default Js.NaN o)).
Proof.
  destruct o as [[|q]|]; simpl; try discriminate.
  destruct (Qeq_bool q 0); simpl; [discriminate | reflexivity].
Qed.

Lemma collect_spec (keys : list string) : forall c result,
  exists new,
    Hook.collect book limit keys c result = result ++ new
    /\ Forall (shownFrom book keys) new
    /\ Hook.total <$> new = runningTotals c (Hook.size <$> new)
    /\ Z.of_nat (length (result ++ new)) <= Z.max limit (Z.of_nat (length result)).
Proof.
  induction keys as [|key ks IH]; intros c result; simpl.
  - exists []. rewrite app_nil_r. repeat split; [constructor | lia].
  - destruct (Z.leb_spec limit (Z.of_nat (length result))) as [Hfull|Hroom].
    + exists []. rewrite app_nil_r. repeat split; [constructor | lia].
    + set (sz := Js.orZero (default Js.NaN (map_get key book))).
      destruct (Js.gtZero sz) eqn:Hpos.
      * destruct (IH (Js.add c sz)
                    (result ++ [Hook.mkLevel (Js.parseFloat key) sz (Js.add c sz)]))
          as (new & Heq & Hall & Htot & Hlen).
        exists (Hook.mkLevel (Js.parseFloat key) sz (Js.add c sz) :: new).
        rewrite Heq, <- app_assoc. simpl. split; [reflexivity|]. split; [|split].
        -- constructor.
           ++ split; [exact Hpos|]. exists key. split; [left|]. split; [reflexivity|].
              simpl. now apply positive_size_is_stored.
           ++ eapply Forall_impl; [exact Hall|].
              intros l (Hl & k & Hk & Hp & Hg). split; [exact Hl|].
              exists k. split; [now right | now split].
        -- f_equal. exact Htot.
        -- rewrite <- app_assoc in Hlen. simpl in Hlen.
           rewrite !length_app in *. simpl in *. lia.
      * destruct (IH c result) as (new & Heq & Hall & Htot & Hlen).
        exists new. split; [exact Heq|]. split; [|now split].
        eapply Forall_impl; [exact Hall|].
        intros l (Hl & k & Hk & Hp & Hg). split; [exact Hl|].
        exists k. split; [now right | now split].
Qed.

End SortBook.

Section SortKeys.

Variable isAsk : bool.

Lemma insert_key_perm k l : Hook.insert_key isAsk k l ≡ₚ k :: l.
Proof.
  induction l as [|x xs IH]; simpl; [reflexivity|].
  destruct (Js.gtZero _); [|reflexivity].
  rewrite IH. apply Permutation_swap.
Qed.

Lemma sortKeys_perm l : Hook.sortKeys isAsk l ≡ₚ l.
Proof.
  induction l as [|x xs IH]; [reflexivity|].
  unfold Hook.sortKeys in *. simpl. now rewrite insert_key_perm, IH.
Qed.

Lemma inOrder_trans x y z : inOrder isAsk x y -> inOrder isAsk y z -> inOrder isAsk x z.
Proof.
  unfold inOrder, numLe. destruct isAsk, x, y, z; simpl; try tauto; lra.
Qed.

Lemma compare_not_positive k x :
  isNumber (Js.parseFloat k) -> isNumber (Js.parseFloat x) ->
  Js.gtZero (Hook.compareKeys isAsk k x) = false ->
  inOrder isAsk (Js.parseFloat k) (Js.parseFloat x).
Proof.
  unfold Hook.compareKeys, inOrder, numLe.
  destruct (Js.parseFloat k) as [|p], (Js.parseFloat x) as [|q]; simpl; try tauto.
  intros _ _. destruct isAsk; simpl; intros H;
    apply negb_false_iff, Qle_bool_iff in H; lra.
Qed.

Lemma compare_positive k x :
  isNumber (Js.parseFloat k) -> isNumber (Js.parseFloat x) ->
  Js.gtZero (Hook.compareKeys isAsk k x) = true ->
  inOrder isAsk (Js.parseFloat x) (Js.parseFloat k).
Proof.
  unfold Hook.compareKeys, inOrder, numLe.
  destruct (Js.parseFloat k) as [|p], (Js.parseFloat x) as [|q]; simpl; try tauto.
  intros _ _. destruct isAsk; simpl; intros H; apply negb_true_iff in H.
  - destruct (Qlt_le_dec 0 (p - q)) as [Hlt|Hle]; [lra|].
    apply Qle_bool_iff in Hle. congruence.
  - destruct (Qlt_le_dec 0 (q - p)) as [Hlt|Hle]; [lra|].
    apply Qle_bool_iff in Hle. congruence.
Qed.

Lemma insert_key_sorted k l :
  isNumber (Js.parseFloat k) ->
  Forall (fun x => isNumber (Js.parseFloat x)) l ->
  StronglySorted (fun a b => inOrder isAsk (Js.parseFloat a) (Js.parseFloat b)) l ->
  StronglySorted (fun a b => inOrder isAsk (Js.parseFloat a) (Js.parseFloat b))
                 (Hook.insert_key isAsk k l).
Proof.
  intros Hk Hnum. induction 1 as [|x xs Hsorted IH Hx]; simpl.
  - repeat constructor.
  - inversion Hnum as [|? ? Hxn Hxs]; subst.
    destruct (Js.gtZero (Hook.compareKeys isAsk k x)) eqn:Hc.
    + constructor; [now apply IH|].
      rewrite insert_key_perm. constructor; [|exact Hx].
      now apply compare_positive.
    + constructor; [now constructor|].
      pose proof (compare_not_positive k x Hk Hxn Hc) as Hkx.
      constructor; [exact Hkx|].
      eapply Forall_impl; [exact Hx|]. simpl. intros y Hy.
      eapply inOrder_trans; eassumption.
Qed.

Lemma sortKeys_sorted l :
  Forall (fun x => isNumber (Js.parseFloat x)) l ->
  StronglySorted (fun a b => inOrder isAsk (Js.parseFloat a) (Js.parseFloat b))
                 (Hook.sortKeys isAsk l).
Proof.
  induction 1 as [|x xs Hx Hxs IH]; [constructor|].
  unfold Hook.sortKeys in *. simpl. apply insert_key_sorted; [exact Hx| |exact IH].
  fold (Hook.sortKeys isAsk xs). now rewrite sortKeys_perm.
Qed.

Lemma collect_sorted (book : Book) (limit : Z) (keys : list string) :
  StronglySorted (fun a b => inOrder isAsk (Js.parseFloat a) (Js.parseFloat b)) keys ->
  forall c result,
  exists new,
    Hook.collect book limit keys c result = result ++ new
    /\ Forall (fun l => exists key, key ∈ keys /\ Hook.price l = Js.parseFloat key) new
    /\ StronglySorted (fun a b => inOrder isAsk (Hook.price a) (Hook.price b)) new.
Proof.
  induction 1 as [|key ks Hsorted IH Hkey]; intros c result; simpl.
  - exists []. rewrite app_nil_r. repeat split; constructor.
  - destruct (limit <=? Z.of_nat (length result)).
    + exists []. rewrite app_nil_r. repeat split; constructor.
    + set (sz := Js.orZero (default Js.NaN (map_get key book))).
      destruct (Js.gtZero sz).
      * destruct (IH (Js.add c sz)
                    (result ++ [Hook.mkLevel (Js.parseFloat key) sz (Js.add c sz)]))
          as (new & Heq & Hall & Hs).
        exists (Hook.mkLevel (Js.parseFloat key) sz (Js.add c sz) :: new).
        rewrite Heq, <- app_assoc. split; [reflexivity|]. split.
        -- constructor; [exists key; split; [left | reflexivity]|].
           eapply Forall_impl; [exact Hall|].
           intros l (k & Hk & Hp). exists k. split; [now right | exact Hp].
        -- constructor; [exact Hs|].
           apply Forall_forall. intros l Hl.
           rewrite Forall_forall in Hall. destruct (Hall l Hl) as (k & Hk & ->).
           rewrite Forall_forall in Hkey. simpl. now apply Hkey.
      * destruct (IH c result) as (new & Heq & Hall & Hs).
        exists new. split; [exact Heq|]. split; [|exact Hs].
        eapply Forall_impl; [exact Hall|].
        intros l (k & Hk & Hp). exists k. split; [now right | exact Hp].
Qed.

End SortKeys.

Lemma sortBook_spec (book : Book) (isAsk : bool) (limit : Z) :
  Forall (shownFrom book (map fst book)) (Hook.sortBook book isAsk limit)
  /\ Hook.total <$> Hook.sortBook book isAsk limit
     = runningTotals (Js.Num 0) (Hook.size <$> Hook.sortBook book isAsk limit)
  /\ Z.of_nat (length (Hook.sortBook book isAsk limit)) <= Z.max 0 limit.
Proof.
  unfold Hook.sortBook.
  destruct (collect_spec book limit (Hook.sortKeys isAsk (map fst book))
              (Js.Num 0) []) as (new & -> & Hall & Htot & Hlen).
  simpl in *. split; [|split; [exact Htot | lia]].
  eapply Forall_impl; [exact Hall|].
  intros l (Hl & k & Hk & Hp & Hg). split; [exact Hl|].
  exists k. split; [|now split]. now rewrite sortKeys_perm in Hk.
Qed.

(** X10.  [getBook(depth)] returns at most [depth] levels per side (none
    when [depth] is 0 or negative), and every level it returns is an entry
    of the book with a strictly positive quantity: its price is the parsed
    key and its size the stored quantity.  Entries holding 0, a negative
    number or [NaN] are never shown. *)
Theorem getBook_shows_positive_entries (depth : Z) (e : t) :
  Z.of_nat (length (fst (Hook.getBook depth e))) <= Z.max 0 depth
  /\ Z.of_nat (length (snd (Hook.getBook depth e))) <= Z.max 0 depth
  /\ (forall l, l ∈ fst (Hook.getBook depth e) ->
        Js.gtZero (Hook.size l) = true
        /\ exists key, Hook.price l = Js.parseFloat key
                       /\ map_get key (bids e) = Some (Hook.size l))
  /\ (forall l, l ∈ snd (Hook.getBook depth e) ->
        Js.gtZero (Hook.size l) = true
        /\ exists key, Hook.price l = Js.parseFloat key
                       /\ map_get key (asks e) = Some (Hook.size l)).
Proof.
  unfold Hook.getBook. simpl.
  destruct (sortBook_spec (bids e) false depth) as (Hb & _ & Hlb).
  destruct (sortBook_spec (asks e) true depth) as (Ha & _ & Hla).
  split; [exact Hlb|]. split; [exact Hla|].
  rewrite Forall_forall in Hb, Ha. split; intros l Hl.
  - destruct (Hb l Hl) as (Hpos & k & _ & Hp & Hg). split; [exact Hpos|]. now exists k.
  - destruct (Ha l Hl) as (Hpos & k & _ & Hp & Hg). split; [exact Hpos|]. now exists k.
Qed.

(** X11.  The [total] of each level returned by [getBook] is the running
    sum of the sizes from the best level down to that level. *)
Theorem getBook_totals_accumulate (depth : Z) (e : t) :
  Hook.total <$> fst (Hook.getBook depth e)
  = runningTotals (Js.Num 0) (Hook.size <$> fst (Hook.getBook depth e))
  /\ Hook.total <$> snd (Hook.getBook depth e)
     = runningTotals (Js.Num 0) (Hook.size <$> snd (Hook.getBook depth e)).
Proof.
  unfold Hook.getBook. simpl.
  destruct (sortBook_spec (bids e) false depth) as (_ & Hb & _).
  destruct (sortBook_spec (asks e) true depth) as (_ & Ha & _).
  now split.
Qed.

(** X12.  When every price key of the book parses to a number, [getBook]
    returns the bids by falling price and the asks by rising price, so the
    first level of each side is the best one. *)
Theorem getBook_best_first (depth : Z) (e : t) :
  Forall (fun kv => isNumber (Js.parseFloat (fst kv))) (bids e) ->
  Forall (fun kv => isNumber (Js.parseFloat (fst kv))) (asks e) ->
  StronglySorted (fun a b => numLe (Hook.price b) (Hook.price a))
                 (fst (Hook.getBook depth e))
  /\ StronglySorted (fun a b => numLe (Hook.price a) (Hook.price b))
                    (snd (Hook.getBook depth e)).
Proof.
  intros Hb Ha. unfold Hook.getBook, Hook.sortBook. simpl.
  assert (Hkeys : forall book : Book,
            Forall (fun kv => isNumber (Js.parseFloat (fst kv))) book ->
            Forall (fun x => isNumber (Js.parseFloat x)) (map fst book)).
  { intros book H. induction H; simpl; constructor; auto. }
  destruct (collect_sorted false (bids e) depth _
              (sortKeys_sorted false _ (Hkeys _ Hb)) (Js.Num 0) [])
    as (newb & -> & _ & Hsb).
  destruct (collect_sorted true (asks e) depth _
              (sortKeys_sorted true _ (Hkeys _ Ha)) (Js.Num 0) [])
    as (newa & -> & _ & Hsa).
  split; [exact Hsb | exact Hsa].
Qed.

Lemma getBook_best_first_witness :
  (Forall (fun kv => isNumber (Js.parseFloat (fst kv))) (bids unsorted_book)
   /\ Forall (fun kv => isNumber (Js.parseFloat (fst kv))) (asks unsorted_book))
  /\ StronglySorted (fun a b => numLe (Hook.price b) (Hook.price a))
                    (fst (Hook.getBook 20 unsorted_book)).
Proof.
  assert (Hb : Forall (fun kv => isNumber (Js.parseFloat (fst kv)))
                      (bids unsorted_book))
    by (repeat constructor).
  assert (Ha : Forall (fun kv => isNumber (Js.parseFloat (fst kv)))
                      (asks unsorted_book))
    by (repeat constructor).
  split; [now split|].
  exact (proj1 (getBook_best_first 20 unsorted_book Hb Ha)).
Defined.

(* ===================================================================== *)
(** ** Further properties of the depth endpoint                          *)
(* ===================================================================== *)

Section DepthEndpoint.

Variables (symbolParam : string) (limitQuery : option string) (now : Z).
Variables (r : Server.FetchResult) (st : Server.State).

Let symbol := Js.toUpperCase symbolParam.
Let limit := Server.limitOf limitQuery.

(** The four ways the handler can answer. *)
Lemma depthHandler_cases :
  (exists c, Server.depthCache st !! symbol = Some c
             /\ (now - Server.lastRequest (Server.rateOf symbol st) < 500
                 \/ now - Server.lastRequest (Server.rateOf symbol st)
                    < Server.backoffMs (Server.rateOf symbol st))
             /\ now - Server.cachedAt c < 10000
             /\ Server.depthHandler symbolParam limitQuery now r st
                = (Server.reply c limit "cache", st))
  \/ (exists f st', Server.fetchBinanceDepth symbol limit now r st = (Some f, st')
                    /\ Server.depthHandler symbolParam limitQuery now r st
                       = (Server.reply f limit "binance", st'))
  \/ (exists c st', Server.fetchBinanceDepth symbol limit now r st = (None, st')
                    /\ Server.depthCache st !! symbol = Some c
                    /\ Server.depthHandler symbolParam limitQuery now r st
                       = (Server.reply c limit "cache", st'))
  \/ (exists st' retryAfter,
        Server.fetchBinanceDepth symbol limit now r st = (None, st')
        /\ Server.depthCache st !! symbol = None
        /\ Server.depthHandler symbolParam limitQuery now r st
           = (Server.Err503 symbol retryAfter, st')
        /\ (retryAfter = Server.backoffMs (Server.rateOf symbol st')
            \/ retryAfter = Server.backoffMs (Server.rateOf symbol st))).
Proof.
  unfold Server.depthHandler. fold symbol limit.
  set (state := Server.rateOf symbol st).
  destruct (Server.fetchBinanceDepth symbol limit now r st) as [fresh st'] eqn:Hfetch.
  unfold Server.RATE_LIMIT_INTERVAL_MS, Server.CACHE_TTL_MS.
  change (5000 * 2) with 10000.
  destruct (Server.depthCache st !! symbol) as [c|] eqn:Hcache.
  - destruct ((now - Server.lastRequest state <? 500)
              || (now - Server.lastRequest state <? Server.backoffMs state)) eqn:Hthr.
    + destruct (Z.ltb_spec (now - Server.cachedAt c) 10000) as [Hage|Hage].
      * left. exists c. split; [reflexivity|]. split; [|now split].
        apply orb_true_iff in Hthr as [H|H]; apply Z.ltb_lt in H; auto.
      * destruct fresh as [f|]; right; [left | right; left]; eauto.
    + destruct fresh as [f|]; right; [left | right; left]; eauto.
  - assert (Hserved :
      (if (now - Server.lastRequest state <? 500)
          || (now - Server.lastRequest state <? Server.backoffMs state)
       then @None Server.DepthCache else None) = None)
      by (destruct (_ || _); reflexivity).
    rewrite Hserved.
    destruct fresh as [f|]; right; [left; eauto|]. right. right.
    destruct (Server.rateLimitState st !! symbol);
      eexists _, _; repeat split; auto.
Qed.

End DepthEndpoint.

Lemma slice0_length {A} (n : Z) (l : list A) :
  0 <= n -> Z.of_nat (length (Js.slice0 n l)) <= n.
Proof.
  intros Hn. unfold Js.slice0.
  destruct (Z.leb_spec 0 n) as [_|Hneg]; [|lia].
  rewrite length_firstn. lia.
Qed.

Lemma limitOf_le (q : option string) : Server.limitOf q <= 1000.
Proof. unfold Server.limitOf. lia. Qed.

(** X13.  The limit the handler works with never exceeds 1000, whatever
    the query says, and a request whose limit is not negative gets at most
    that many bids and at most that many asks. *)
Theorem depth_response_is_capped
    (symbolParam : string) (limitQuery : option string) (now : Z)
    (r : Server.FetchResult) (st : Server.State)
    (id : Z) (bs az : list Level) (at' : Z) (src : string) :
  fst (Server.depthHandler symbolParam limitQuery now r st)
  = Server.Ok200 id bs az at' src ->
  0 <= Server.limitOf limitQuery ->
  Server.limitOf limitQuery <= 1000
  /\ Z.of_nat (length bs) <= Server.limitOf limitQuery
  /\ Z.of_nat (length az) <= Server.limitOf limitQuery.
Proof.
  intros Hresp Hlim. split; [apply limitOf_le|].
  destruct (depthHandler_cases symbolParam limitQuery now r st)
    as [(c & _ & _ & _ & Hh)|[(f & st' & _ & Hh)|[(c & st' & _ & _ & Hh)
       |(st' & ra & _ & _ & Hh & _)]]];
    rewrite Hh in Hresp; simpl in Hresp; try discriminate;
    injection Hresp as _ <- <- _ _; split; now apply slice0_length.
Qed.

Lemma depth_response_is_capped_witness :
  0 <= Server.limitOf (Some "1"%string)
  /\ fst (Server.depthHandler "btcusdt" (Some "1"%string) 10
            (Server.Json zero_snapshot) Server.initial)
     = Server.Ok200 100 [("10", "0")%string] [("11", "1")%string] 10 "binance"
  /\ Z.of_nat (length [("10", "0")%string]) <= Server.limitOf (Some "1"%string).
Proof.
  assert (Hlim : 0 <= Server.limitOf (Some "1"%string)) by (vm_compute; discriminate).
  destruct (depth_response_is_capped "btcusdt" (Some "1"%string) 10
              (Server.Json zero_snapshot) Server.initial
              100 [("10", "0")%string] [("11", "1")%string] 10 "binance"
              eq_refl Hlim) as (_ & Hb & _).
  split; [exact Hlim|]. split; [reflexivity | exact Hb].
Defined.

(** X14.  A request that comes within 500 ms of the symbol's last upstream
    request, or within its back-off, while the cache holds a snapshot
    younger than 10 s, is answered from the cache: the answer does not
    depend on what the upstream would have returned, and neither the cache
    nor the rate-limit records change. *)
Theorem throttled_request_is_served_from_cache
    (symbolParam : string) (limitQuery : option string) (now : Z)
    (r : Server.FetchResult) (st : Server.State) (c : Server.DepthCache) :
  Server.depthCache st !! Js.toUpperCase symbolParam = Some c ->
  now - Server.cachedAt c < 10000 ->
  (now - Server.lastRequest (Server.rateOf (Js.toUpperCase symbolParam) st) < 500
   \/ now - Server.lastRequest (Server.rateOf (Js.toUpperCase symbolParam) st)
      < Server.backoffMs (Server.rateOf (Js.toUpperCase symbolParam) st)) ->
  Server.depthHandler symbolParam limitQuery now r st
  = (Server.Ok200 (Server.lastUpdateId c)
       (Js.slice0 (Server.limitOf limitQuery) (Server.bids c))
       (Js.slice0 (Server.limitOf limitQuery) (Server.asks c))
       (Server.cachedAt c) "cache", st).
Proof.
  intros Hcache Hage Hthr. unfold Server.depthHandler. rewrite Hcache.
  unfold Server.RATE_LIMIT_INTERVAL_MS, Server.CACHE_TTL_MS.
  change (5000 * 2) with 10000.
  assert (H1 : (now - Server.lastRequest (Server.rateOf (Js.toUpperCase symbolParam) st) <? 500)
               || (now - Server.lastRequest (Server.rateOf (Js.toUpperCase symbolParam) st)
                   <? Server.backoffMs (Server.rateOf (Js.toUpperCase symbolParam) st))
               = true).
  { apply orb_true_iff. destruct Hthr as [H|H]; [left | right]; now apply Z.ltb_lt. }
  assert (H2 : (now - Server.cachedAt c <? 10000) = true) by now apply Z.ltb_lt.
  now rewrite H1, H2.
Qed.

Lemma throttled_request_is_served_from_cache_witness :
  (Server.depthCache cached_proxy !! Js.toUpperCase "btcusdt"
   = Some (Server.mkCache 100 [("10", "1")%string] [("11", "1")%string] 10)
   /\ 300 - 10 < 10000)
  /\ Server.depthHandler "btcusdt" None 300 (Server.NotOk 429) cached_proxy
     = (Server.Ok200 100 [("10", "1")%string] [("11", "1")%string] 10 "cache",
        cached_proxy).
Proof.
  assert (Hc : Server.depthCache cached_proxy !! Js.toUpperCase "btcusdt"
               = Some (Server.mkCache 100 [("10", "1")%string] [("11", "1")%string] 10))
    by reflexivity.
  assert (Hage : 300 - 10 < 10000) by reflexivity.
  split; [now split|].
  rewrite (throttled_request_is_served_from_cache "btcusdt" None 300
             (Server.NotOk 429) cached_proxy _ Hc Hage);
    [reflexivity | left; reflexivity].
Defined.

(** X15.  The handler answers 503 exactly when the cache holds nothing for
    the symbol and the upstream fetch yields no snapshot.  The 503 names
    the upper-cased symbol, and its [retryAfter] lies within
    [2000, 30000] when the stored rate-limit records do. *)
Theorem unavailable_only_without_cache
    (symbolParam : string) (limitQuery : option string) (now : Z)
    (r : Server.FetchResult) (st : Server.State) :
  ((exists sym retryAfter,
      fst (Server.depthHandler symbolParam limitQuery now r st)
      = Server.Err503 sym retryAfter)
   <->
   Server.depthCache st !! Js.toUpperCase symbolParam = None
   /\ fst (Server.fetchBinanceDepth (Js.toUpperCase symbolParam)
             (Server.limitOf limitQuery) now r st) = None)
  /\ (forall sym retryAfter,
        fst (Server.depthHandler symbolParam limitQuery now r st)
        = Server.Err503 sym retryAfter ->
        sym = Js.toUpperCase symbolParam
        /\ (recordsInBounds st -> inBounds retryAfter)).
Proof.
  destruct (depthHandler_cases symbolParam limitQuery now r st)
    as [(c & Hc & _ & _ & Hh)|[(f & st' & Hf & Hh)|[(c & st' & Hf & Hc & Hh)
       |(st' & ra & Hf & Hc & Hh & Hra)]]]; rewrite Hh; simpl.
  - split; [|discriminate]. split.
    + intros (sym & ra & H). discriminate H.
    + intros [Hn _]. congruence.
  - split; [|discriminate]. split.
    + intros (sym & ra & H). discriminate H.
    + intros [_ Hn]. rewrite Hf in Hn. discriminate Hn.
  - split; [|discriminate]. split.
    + intros (sym & ra & H). discriminate H.
    + intros [Hn _]. congruence.
  - split.
    + split; [intros _|eauto]. rewrite Hf. now split.
    + intros sym retryAfter [= <- <-]. split; [reflexivity|].
      intros Hst. destruct Hra as [-> | ->].
      * apply rateOf_inBounds.
        pose proof (fetchBinanceDepth_inBounds (Js.toUpperCase symbolParam)
                      (Server.limitOf limitQuery) now r st Hst) as Hb.
        now rewrite Hf in Hb.
      * now apply rateOf_inBounds.
Qed.

Lemma unavailable_only_without_cache_witness :
  fst (Server.depthHandler "btcusdt" None 10 Server.Throws Server.initial)
  = Server.Err503 "BTCUSDT" 2000.
Proof.
  destruct (unavailable_only_without_cache "btcusdt" None 10 Server.Throws
              Server.initial) as ((_ & Hback) & _).
  destruct Hback as (sym & ra & H); [split; reflexivity|].
  reflexivity.
Defined.

Lemma fetch_success_inv (symbol : string) (limit now : Z)
    (r : Server.FetchResult) (st st' : Server.State) (c : Server.DepthCache) :
  Server.fetchBinanceDepth symbol limit now r st = (Some c, st') ->
  exists d,
    r = Server.Json d
    /\ validPayload d = Some (Server.lastUpdateId c, Server.bids c, Server.asks c)
    /\ Server.cachedAt c = now
    /\ st' = Server.mkState (<[symbol := c]> (Server.depthCache st))
               (<[symbol := Server.mkRate now 2000]> (Server.rateLimitState st)).
Proof.
  unfold Server.fetchBinanceDepth. destruct r as [status|d|]; simpl.
  - destruct (_ || _); discriminate.
  - destruct (validPayload d) as [[[n bs] az]|] eqn:Hd; [|discriminate].
    intros [= <- <-]. exists d. now repeat split.
  - discriminate.
Qed.

(** X16.  After a successful fetch for a symbol at time [t], every depth
    request for that symbol (in any letter case) made before [t + 2000] is
    answered from the cache with the snapshot just fetched, without going
    upstream and without changing the proxy's state. *)
Theorem fresh_snapshot_is_reused
    (symbolParam : string) (limit t : Z) (r0 : Server.FetchResult)
    (st st' : Server.State) (c : Server.DepthCache)
    (limitQuery : option string) (now : Z) (r : Server.FetchResult) :
  Server.fetchBinanceDepth (Js.toUpperCase symbolParam) limit t r0 st = (Some c, st') ->
  now < t + 2000 ->
  Server.depthHandler symbolParam limitQuery now r st'
  = (Server.Ok200 (Server.lastUpdateId c)
       (Js.slice0 (Server.limitOf limitQuery) (Server.bids c))
       (Js.slice0 (Server.limitOf limitQuery) (Server.asks c))
       t "cache", st').
Proof.
  intros Hfetch Hsoon.
  destruct (fetch_success_inv _ _ _ _ _ _ _ Hfetch) as (d & _ & _ & Hat & ->).
  subst t. unfold Server.depthHandler, Server.rateOf. simpl.
  rewrite !lookup_insert_eq. simpl.
  unfold Server.RATE_LIMIT_INTERVAL_MS, Server.CACHE_TTL_MS, Server.MIN_BACKOFF_MS.
  assert (H1 : (now - Server.cachedAt c <? 2000) = true) by (apply Z.ltb_lt; lia).
  assert (H2 : (now - Server.cachedAt c <? 5000 * 2) = true) by (apply Z.ltb_lt; lia).
  now rewrite H1, H2, orb_true_r.
Qed.

Lemma fresh_snapshot_is_reused_witness :
  (Server.fetchBinanceDepth (Js.toUpperCase "btcusdt") 1000 10
     (Server.Json snapshot100) Server.initial
   = (Some (Server.mkCache 100 [("10", "1")%string] [("11", "1")%string] 10),
      cached_proxy)
   /\ 1500 < 10 + 2000)
  /\ Server.depthHandler "btcusdt" None 1500 Server.Throws cached_proxy
     = (Server.Ok200 100 [("10", "1")%string] [("11", "1")%string] 10 "cache",
        cached_proxy).
Proof.
  assert (Hf : Server.fetchBinanceDepth (Js.toUpperCase "btcusdt") 1000 10
                 (Server.Json snapshot100) Server.initial
               = (Some (Server.mkCache 100 [("10", "1")%string] [("11", "1")%string] 10),
                  cached_proxy)) by reflexivity.
  assert (Hsoon : 1500 < 10 + 2000) by reflexivity.
  split; [now split|].
  rewrite (fresh_snapshot_is_reused "btcusdt" 1000 10 _ _ _ _ None 1500
             Server.Throws Hf Hsoon).
  reflexivity.
Defined.

(** X17.  [fetchBinanceDepth] for one symbol never touches the cached
    snapshot or the rate-limit record of another symbol; a fetch that
    returns null leaves the whole cache as it was; a fetch that returns a
    snapshot has stored exactly that snapshot for the symbol, with a
    non-zero [lastUpdateId], and has reset the symbol's record to the
    current time and the minimum back-off. *)
Theorem fetch_touches_one_symbol
    (symbol : string) (limit now : Z) (r : Server.FetchResult) (st : Server.State) :
  (forall other, other <> symbol ->
     Server.depthCache (snd (Server.fetchBinanceDepth symbol limit now r st)) !! other
     = Server.depthCache st !! other
     /\ Server.rateLimitState (snd (Server.fetchBinanceDepth symbol limit now r st)) !! other
        = Server.rateLimitState st !! other)
  /\ (fst (Server.fetchBinanceDepth symbol limit now r st) = None ->
      Server.depthCache (snd (Server.fetchBinanceDepth symbol limit now r st))
      = Server.depthCache st)
  /\ (forall c,
        fst (Server.fetchBinanceDepth symbol limit now r st) = Some c ->
        Server.depthCache (snd (Server.fetchBinanceDepth symbol limit now r st)) !! symbol
        = Some c
        /\ Server.lastUpdateId c <> 0
        /\ Server.rateLimitState (snd (Server.fetchBinanceDepth symbol limit now r st)) !! symbol
           = Some (Server.mkRate now 2000)).
Proof.
  unfold Server.fetchBinanceDepth.
  destruct r as [status|d|]; simpl.
  - destruct ((status =? 429) || (status =? 418)); simpl.
    + split; [|split; [reflexivity | discriminate]].
      intros other Hne. split; [reflexivity|]. apply lookup_insert_ne. congruence.
    + split; [auto|]. split; [reflexivity | discriminate].
  - destruct (validPayload d) as [[[n bs] az]|] eqn:Hd; simpl.
    + split; [|split; [discriminate|]].
      * intros other Hne. split; apply lookup_insert_ne; congruence.
      * intros c [= <-]. simpl. rewrite !lookup_insert_eq.
        split; [reflexivity|]. split; [|reflexivity].
        unfold validPayload in Hd.
        destruct (p_lastUpdateId d), (p_bids d), (p_asks d); try discriminate.
        destruct (Z.eqb_spec z 0); [discriminate|]. now injection Hd as <- _ _.
    + split; [auto|]. split; [reflexivity | discriminate].
  - split; [auto|]. split; [reflexivity | discriminate].
Qed.

Lemma fetch_touches_one_symbol_witness :
  Server.depthCache
    (snd (Server.fetchBinanceDepth "ETHUSDT" 1000 50 (Server.Json snapshot500)
            cached_proxy)) !! "BTCUSDT"%string
  = Server.depthCache cached_proxy !! "BTCUSDT"%string.
Proof.
  destruct (fetch_touches_one_symbol "ETHUSDT" 1000 50 (Server.Json snapshot500)
              cached_proxy) as (Hother & _).
  destruct (Hother "BTCUSDT"%string) as (Hc & _); [discriminate | exact Hc].
Defined.

(* ===================================================================== *)
(** ** The upstream connection and the client registry                   *)
(* ===================================================================== *)

Section UpstreamFacts.

Implicit Types (u : Upstream.t) (s : string).

Lemma elem_of_allSymbols u s :
  s ∈ Upstream.allSymbols u <->
  exists ws subs, Upstream.clientSymbols u !! ws = Some subs /\ s ∈ subs.
Proof.
  unfold Upstream.allSymbols. rewrite elem_of_union_list. split.
  - intros (X & HX & Hs). apply list_elem_of_fmap in HX as ([ws subs] & -> & Hin).
    apply elem_of_map_to_list in Hin. now exists ws, subs.
  - intros (ws & subs & Hl & Hs). exists subs. split; [|exact Hs].
    apply list_elem_of_fmap. exists (ws, subs). split; [reflexivity|].
    now apply elem_of_map_to_list.
Qed.

Lemma symbolsChanged_false (all current : gset string) :
  Upstream.symbolsChanged all current = false <-> all = current.
Proof.
  unfold Upstream.symbolsChanged. rewrite orb_false_iff, negb_false_iff.
  rewrite Nat.eqb_eq. split.
  - intros [Hsize Hnone].
    apply set_subseteq_size_eq; [|lia].
    intros s Hs. apply elem_of_elements in Hs.
    destruct (decide (s ∈ current)) as [Hin|Hout]; [exact Hin|].
    exfalso. assert (Hex : existsb (fun s => negb (bool_decide (s ∈ current)))
                                    (elements all) = true).
    { apply existsb_exists. exists s. split; [now apply list_elem_of_In|].
      apply negb_true_iff. now apply bool_decide_eq_false. }
    congruence.
  - intros ->. split; [reflexivity|].
    destruct (existsb _ _) eqn:Hex; [|reflexivity].
    apply existsb_exists in Hex as (s & Hs & Hneg).
    apply negb_true_iff, bool_decide_eq_false in Hneg.
    exfalso. apply Hneg. apply elem_of_elements. now apply list_elem_of_In.
Qed.

Lemma connectToBinance_registry u :
  Upstream.clientSymbols (snd (Upstream.connectToBinance u)) = Upstream.clientSymbols u
  /\ Upstream.wsClients (snd (Upstream.connectToBinance u)) = Upstream.wsClients u
  /\ Upstream.reconnectAttempts (snd (Upstream.connectToBinance u))
     = Upstream.reconnectAttempts u.
Proof.
  unfold Upstream.connectToBinance.
  destruct (Nat.eqb _ 0); [now simpl|].
  destruct (_ && _); now simpl.
Qed.

Lemma connectToBinance_current u :
  Upstream.currentStreamSymbols (snd (Upstream.connectToBinance u))
  = Upstream.allSymbols u.
Proof.
  unfold Upstream.connectToBinance.
  destruct (Nat.eqb_spec (size (Upstream.allSymbols u)) 0) as [Hempty|Hsome]; simpl.
  - apply size_empty_inv in Hempty. now apply leibniz_equiv in Hempty.
  - destruct (negb (Upstream.symbolsChanged _ _) && _) eqn:Hkeep; simpl; [|reflexivity].
    apply andb_prop in Hkeep as [Hsame _].
    apply negb_true_iff, symbolsChanged_false in Hsame. now symmetry.
Qed.

Lemma allSymbols_connect u :
  Upstream.allSymbols (snd (Upstream.connectToBinance u)) = Upstream.allSymbols u.
Proof.
  unfold Upstream.allSymbols.
  now destruct (connectToBinance_registry u) as (-> & _).
Qed.

End UpstreamFacts.

(** X18.  The change test of [connectToBinance] (sizes differ, or some
    wanted symbol is not subscribed) is exact: it reports no change
    precisely when the wanted set and the subscribed set are equal. *)
Theorem symbols_change_test_is_exact (all current : gset string) :
  (Upstream.symbolsChanged all current = false <-> all = current)
  /\ (Upstream.symbolsChanged all current = true <-> all <> current).
Proof.
  pose proof (symbolsChanged_false all current) as Hfalse.
  split; [exact Hfalse|].
  destruct (Upstream.symbolsChanged all current); split; try congruence.
  - intros _ Heq. apply Hfalse in Heq. discriminate Heq.
  - intros Hne. exfalso. apply Hne. now apply Hfalse.
Qed.

(** X19.  After [connectToBinance] the subscribed set is the union of the
    clients' sets, and the registry is untouched.  With no symbol wanted
    there is no upstream socket afterwards and none is opened; otherwise
    there is one.  A socket is opened only for the whole union, and
    nothing at all is done when the union is unchanged and the socket is
    open. *)
Theorem connectToBinance_subscribes_to_union (u : Upstream.t) :
  Upstream.currentStreamSymbols (snd (Upstream.connectToBinance u))
  = Upstream.allSymbols u
  /\ Upstream.clientSymbols (snd (Upstream.connectToBinance u))
     = Upstream.clientSymbols u
  /\ (Upstream.binanceWs (snd (Upstream.connectToBinance u)) = None
      <-> Upstream.allSymbols u = ∅)
  /\ (forall symbols,
        Upstream.OpenUpstream symbols ∈ fst (Upstream.connectToBinance u) ->
        symbols = Upstream.allSymbols u /\ symbols <> ∅)
  /\ (Upstream.allSymbols u <> ∅ ->
      Upstream.currentStreamSymbols u = Upstream.allSymbols u ->
      Upstream.binanceWs u = Some Upstream.OPEN ->
      Upstream.connectToBinance u = ([], u)).
Proof.
  split; [apply connectToBinance_current|].
  split; [apply connectToBinance_registry|].
  assert (Hsize : Nat.eqb (size (Upstream.allSymbols u)) 0 = true
                  <-> Upstream.allSymbols u = ∅).
  { rewrite Nat.eqb_eq. split.
    - intros H. apply size_empty_inv in H. now apply leibniz_equiv in H.
    - intros ->. apply size_empty. }
  unfold Upstream.connectToBinance.
  destruct (Nat.eqb (size (Upstream.allSymbols u)) 0) eqn:He.
  - assert (Hempty : Upstream.allSymbols u = ∅) by now apply Hsize.
    simpl. split; [tauto|]. split; [|congruence].
    intros symbols Hin. unfold Upstream.closeExisting in Hin.
    destruct (Upstream.binanceWs u); apply list_elem_of_In in Hin;
      simpl in Hin; intuition discriminate.
  - assert (Hsome : Upstream.allSymbols u <> ∅).
    { intros H. apply Hsize in H. congruence. }
    destruct (negb (Upstream.symbolsChanged _ _)
              && Upstream.isOpenSocket (Upstream.binanceWs u)) eqn:Hkeep; simpl.
    + apply andb_prop in Hkeep as [_ Hopen].
      split; [|split; [intros symbols Hin; inversion Hin | reflexivity]].
      destruct (Upstream.binanceWs u); [|discriminate Hopen].
      split; [discriminate | tauto].
    + split; [split; [discriminate | tauto]|]. split.
      * intros symbols Hin. apply elem_of_app in Hin as [Hin|Hin].
        -- unfold Upstream.closeExisting in Hin.
           destruct (Upstream.binanceWs u); apply list_elem_of_In in Hin;
             simpl in Hin; intuition discriminate.
        -- apply list_elem_of_singleton in Hin. injection Hin as ->. now split.
      * intros _ Hcur Hws. rewrite Hws in Hkeep. simpl in Hkeep.
        rewrite andb_true_r in Hkeep. apply negb_false_iff in Hkeep.
        assert (Hno : Upstream.symbolsChanged (Upstream.allSymbols u)
                        (Upstream.currentStreamSymbols u) = false)
          by (now apply symbolsChanged_false).
        congruence.
Qed.

Lemma connectToBinance_subscribes_to_union_witness :
  (Upstream.allSymbols two_clients <> ∅
   /\ Upstream.currentStreamSymbols two_clients = Upstream.allSymbols two_clients
   /\ Upstream.binanceWs two_clients = Some Upstream.OPEN)
  /\ Upstream.connectToBinance two_clients = ([], two_clients).
Proof.
  assert (Hne : Upstream.allSymbols two_clients <> ∅).
  { intros H. apply (f_equal size) in H. vm_compute in H. discriminate H. }
  assert (Hcur : Upstream.currentStreamSymbols two_clients
                 = Upstream.allSymbols two_clients) by (vm_compute; reflexivity).
  assert (Hws : Upstream.binanceWs two_clients = Some Upstream.OPEN)
    by (vm_compute; reflexivity).
  destruct (connectToBinance_subscribes_to_union two_clients)
    as (_ & _ & _ & _ & Hkeep).
  split; [now repeat split | exact (Hkeep Hne Hcur Hws)].
Defined.

Section UpstreamHistories.

Implicit Types (u : Upstream.t).

Lemma connectToBinance_socket u :
  Upstream.binanceWs (snd (Upstream.connectToBinance u)) = None ->
  Upstream.allSymbols u = ∅.
Proof.
  unfold Upstream.connectToBinance.
  destruct (Nat.eqb_spec (size (Upstream.allSymbols u)) 0) as [Hempty|Hsome]; simpl.
  - intros _. apply size_empty_inv in Hempty. now apply leibniz_equiv in Hempty.
  - destruct (negb _ && Upstream.isOpenSocket (Upstream.binanceWs u)) eqn:Hkeep;
      simpl; [|discriminate].
    apply andb_prop in Hkeep as [_ Hopen]. intros Hnone.
    rewrite Hnone in Hopen. discriminate Hopen.
Qed.

Lemma connect_settles u :
  0 <= Upstream.reconnectAttempts u -> settled (snd (Upstream.connectToBinance u)).
Proof.
  intros Hn. split; [|split].
  - now rewrite connectToBinance_current, allSymbols_connect.
  - now destruct (connectToBinance_registry u) as (_ & _ & ->).
  - rewrite allSymbols_connect. apply connectToBinance_socket.
Qed.

Lemma onClientMessage_attempts u (ws : nat) (msg : Upstream.ClientMessage) :
  Upstream.reconnectAttempts (snd (Upstream.onClientMessage ws msg u))
  = Upstream.reconnectAttempts u.
Proof.
  unfold Upstream.onClientMessage.
  destruct msg as [|type [symbols|]]; [reflexivity| |reflexivity].
  destruct (Upstream.readSymbols symbols) as [strings threw].
  destruct (String.eqb type "subscribe").
  - destruct threw.
    + now destruct (Upstream.clientSymbols u !! ws).
    + now destruct (connectToBinance_registry
                      (Upstream.withSubscriptions
                         (<[ws := fold_left (fun acc s => {[Js.toUpperCase s]} ∪ acc)
                                    strings (default ∅ (Upstream.clientSymbols u !! ws))]>
                            (Upstream.clientSymbols u)) u)) as (_ & _ & ->).
  - destruct (String.eqb type "unsubscribe"); [|reflexivity].
    destruct (Upstream.clientSymbols u !! ws) as [subs|]; [|reflexivity].
    destruct threw; [reflexivity|].
    now destruct (connectToBinance_registry
                    (Upstream.withSubscriptions
                       (<[ws := fold_left (fun acc s => acc ∖ {[Js.toUpperCase s]})
                                  strings subs]> (Upstream.clientSymbols u)) u))
      as (_ & _ & ->).
Qed.

Lemma handle_attempts u (h : Upstream.Happening) :
  0 <= Upstream.reconnectAttempts u ->
  0 <= Upstream.reconnectAttempts (Upstream.handle u h).
Proof.
  intros Hn. destruct h as [ws param|ws msg|ws| |current|]; simpl.
  - unfold Upstream.onConnection.
    match goal with
    | |- context [Upstream.connectToBinance ?v] =>
        destruct (connectToBinance_registry v) as (_ & _ & Ha);
        destruct (Upstream.connectToBinance v) as [effects u2]
    end.
    simpl in *. now rewrite Ha.
  - now rewrite onClientMessage_attempts.
  - unfold Upstream.onClientClose.
    match goal with
    | |- context [Upstream.connectToBinance ?v] =>
        destruct (connectToBinance_registry v) as (_ & _ & ->)
    end.
    exact Hn.
  - lia.
  - unfold Upstream.onClose. destruct (Nat.ltb 0 _); simpl; lia.
  - now destruct (connectToBinance_registry u) as (_ & _ & ->).
Qed.

Lemma reached_attempts u : Upstream.reached u -> 0 <= Upstream.reconnectAttempts u.
Proof.
  intros [hs <-].
  assert (Hinit : 0 <= Upstream.reconnectAttempts Upstream.initial) by (simpl; lia).
  revert Hinit. generalize Upstream.initial as u0.
  induction hs as [|h rest IH]; intros u0 Hu0; simpl; [exact Hu0|].
  apply IH. now apply handle_attempts.
Qed.

Lemma reached_handle u (h : Upstream.Happening) :
  Upstream.reached u -> Upstream.reached (Upstream.handle u h).
Proof.
  intros [hs <-]. exists (hs ++ [h]). now rewrite fold_left_app.
Qed.

Lemma reachedByStrings_reached u : Upstream.reachedByStrings u -> Upstream.reached u.
Proof. intros (hs & _ & Hu). now exists hs. Qed.

Lemma handle_settled u (h : Upstream.Happening) :
  Upstream.stringsOnly h = true -> settled u -> settled (Upstream.handle u h).
Proof.
  intros Hstr (Hcur & Hn & Hws). destruct h as [ws param|ws msg|ws| |current|]; simpl.
  - unfold Upstream.onConnection.
    match goal with
    | |- context [Upstream.connectToBinance ?v] =>
        pose proof (connect_settles v Hn) as Hs;
        destruct (Upstream.connectToBinance v) as [effects u2]
    end.
    exact Hs.
  - unfold Upstream.onClientMessage.
    destruct msg as [|type [symbols|]]; simpl; try (now repeat split).
    simpl in Hstr. apply negb_true_iff in Hstr.
    destruct (Upstream.readSymbols symbols) as [strings threw].
    simpl in Hstr. subst threw.
    destruct (String.eqb type "subscribe"); [now apply connect_settles|].
    destruct (String.eqb type "unsubscribe"); [|now repeat split].
    destruct (Upstream.clientSymbols u !! ws);
      [now apply connect_settles | now repeat split].
  - unfold Upstream.onClientClose. now apply connect_settles.
  - split; [exact Hcur|]. split; [simpl; lia | discriminate].
  - unfold Upstream.onClose.
    destruct (Nat.ltb 0 _); simpl;
      (split; [exact Hcur|]; split; [simpl; lia|]; simpl;
       destruct current, (Upstream.binanceWs u); try discriminate; auto).
  - now apply connect_settles.
Qed.

Lemma reached_settled u : Upstream.reachedByStrings u -> settled u.
Proof.
  intros (hs & Hstr & <-).
  assert (Hinit : settled Upstream.initial).
  { split; [vm_compute; reflexivity|]. split; [simpl; lia|].
    intros _. vm_compute. reflexivity. }
  revert Hstr Hinit. generalize Upstream.initial as u0.
  induction hs as [|h rest IH]; intros u0 Hstr Hu0; simpl; [exact Hu0|].
  simpl in Hstr. apply andb_prop in Hstr as [Hh Hrest].
  apply IH; [exact Hrest|]. now apply handle_settled.
Qed.

End UpstreamHistories.

(** X20.  As long as every element of the [symbols] array of every control
    frame is a string: whatever clients connect, subscribe, unsubscribe and
    leave, and whatever the upstream socket does, after every handler the
    subscribed set holds exactly the symbols that some client has in its
    set; and whenever there is no upstream socket, no client wants any
    symbol.  A [subscribe] frame whose array has a string [s] followed by a
    value that is not a string breaks this: [s] upper-cased is added to the
    set of a connected client, the [forEach] then throws, and
    [connectToBinance] is not reached, so a symbol that no client wanted
    before is now wanted by one but is not subscribed upstream. *)
Theorem upstream_follows_clients (u : Upstream.t) :
  Upstream.reachedByStrings u ->
  (forall s, s ∈ Upstream.currentStreamSymbols u <->
             exists ws subs, Upstream.clientSymbols u !! ws = Some subs /\ s ∈ subs)
  /\ Upstream.currentStreamSymbols u = Upstream.allSymbols u
  /\ (Upstream.binanceWs u = None ->
      forall ws subs, Upstream.clientSymbols u !! ws = Some subs -> subs = ∅)
  /\ (forall (ws : nat) (subs : gset string) (s : string)
             (rest : list (option string)),
        Upstream.clientSymbols u !! ws = Some subs ->
        Js.toUpperCase s ∉ Upstream.allSymbols u ->
        Upstream.reached
          (Upstream.handle u
             (Upstream.ClientMessageIn ws
                (Upstream.Control "subscribe" (Some (Some s :: None :: rest)))))
        /\ Upstream.clientSymbols
             (Upstream.handle u
                (Upstream.ClientMessageIn ws
                   (Upstream.Control "subscribe" (Some (Some s :: None :: rest)))))
             !! ws = Some ({[Js.toUpperCase s]} ∪ subs)
        /\ (Js.toUpperCase s ∉
             Upstream.currentStreamSymbols
               (Upstream.handle u
                  (Upstream.ClientMessageIn ws
                     (Upstream.Control "subscribe" (Some (Some s :: None :: rest))))))).
Proof.
  intros Hu. destruct (reached_settled u Hu) as (Hcur & _ & Hws).
  split; [|split; [exact Hcur|split]].
  - intros s. rewrite Hcur. apply elem_of_allSymbols.
  - intros Hnone ws subs Hl. apply leibniz_equiv. apply set_equiv. intros s.
    split; [|set_solver]. intros Hs.
    assert (Hin : s ∈ Upstream.allSymbols u)
      by (apply elem_of_allSymbols; now exists ws, subs).
    rewrite (Hws Hnone) in Hin. exact Hin.
  - intros ws subs s rest Hl Hnew.
    split; [apply reached_handle; now apply reachedByStrings_reached|].
    simpl. rewrite Hl. simpl. split; [apply lookup_insert_eq|].
    now rewrite Hcur.
Qed.

Lemma upstream_follows_clients_witness :
  Upstream.reachedByStrings two_clients
  /\ Upstream.currentStreamSymbols two_clients = Upstream.allSymbols two_clients
  /\ Upstream.clientSymbols two_clients !! 1%nat = Some {["BTCUSDT"%string]}
  /\ (Js.toUpperCase "solusdt" ∉ Upstream.allSymbols two_clients)
  /\ Upstream.clientSymbols
       (Upstream.handle two_clients
          (Upstream.ClientMessageIn 1
             (Upstream.Control "subscribe" (Some [Some "solusdt"%string; None]))))
       !! 1%nat = Some ({[Js.toUpperCase "solusdt"]} ∪ {["BTCUSDT"%string]})
  /\ (Js.toUpperCase "solusdt" ∉
       Upstream.currentStreamSymbols
         (Upstream.handle two_clients
            (Upstream.ClientMessageIn 1
               (Upstream.Control "subscribe" (Some [Some "solusdt"%string; None]))))).
Proof.
  assert (Hr : Upstream.reachedByStrings two_clients).
  { eexists. split; [|unfold two_clients; reflexivity]. reflexivity. }
  assert (Hl : Upstream.clientSymbols two_clients !! 1%nat = Some {["BTCUSDT"%string]})
    by (vm_compute; reflexivity).
  assert (Hnew : Js.toUpperCase "solusdt" ∉ Upstream.allSymbols two_clients).
  { apply (bool_decide_eq_false_1 _). vm_compute. reflexivity. }
  destruct (upstream_follows_clients two_clients Hr) as (_ & Hcur & _ & Hbad).
  destruct (Hbad 1%nat _ "solusdt"%string [] Hl Hnew) as (_ & Hset & Hnot).
  repeat split; assumption.
Defined.

Lemma reconnectDelay_bounds (n : Z) :
  1 <= n -> 2000 <= Upstream.reconnectDelay n <= 30000.
Proof.
  intros Hn. unfold Upstream.reconnectDelay, Upstream.MAX_RECONNECT_DELAY.
  assert (2 ^ 1 <= 2 ^ n) by (apply Z.pow_le_mono_r; lia).
  change (2 ^ 1) with 2 in *. lia.
Qed.

(** X21.  When the upstream socket closes while clients are attached,
    exactly one reconnect is scheduled, the attempt counter goes up by
    one, and the delay before jitter is [min(1000 * 2^attempts, 30000)]:
    between 2000 and 30000, and 30000 from the fifth attempt in a row on.
    With no client attached nothing is scheduled.  A successful open puts
    the counter back to 0. *)
Theorem reconnect_delay_is_bounded (current : bool) (u : Upstream.t) :
  Upstream.reached u ->
  (Upstream.wsClients u <> ∅ ->
   fst (Upstream.onClose current u)
   = [Upstream.ScheduleReconnect
        (Upstream.reconnectDelay (Upstream.reconnectAttempts u + 1))]
   /\ Upstream.reconnectAttempts (snd (Upstream.onClose current u))
      = Upstream.reconnectAttempts u + 1
   /\ 2000 <= Upstream.reconnectDelay (Upstream.reconnectAttempts u + 1) <= 30000
   /\ (4 <= Upstream.reconnectAttempts u ->
       Upstream.reconnectDelay (Upstream.reconnectAttempts u + 1) = 30000))
  /\ (Upstream.wsClients u = ∅ -> fst (Upstream.onClose current u) = [])
  /\ Upstream.reconnectAttempts (Upstream.onOpen u) = 0.
Proof.
  intros Hu. pose proof (reached_attempts u Hu) as Hn.
  unfold Upstream.onClose. split; [|split; [|reflexivity]].
  - intros Hclients.
    assert (Hsize : Nat.ltb 0 (size (Upstream.wsClients u)) = true).
    { apply Nat.ltb_lt. destruct (size (Upstream.wsClients u)) eqn:Hs; [|lia].
      apply size_empty_inv in Hs. apply leibniz_equiv in Hs. congruence. }
    rewrite Hsize. simpl. split; [reflexivity|]. split; [reflexivity|].
    split; [apply reconnectDelay_bounds; lia|].
    intros Hmany. unfold Upstream.reconnectDelay, Upstream.MAX_RECONNECT_DELAY.
    assert (2 ^ 5 <= 2 ^ (Upstream.reconnectAttempts u + 1))
      by (apply Z.pow_le_mono_r; lia).
    change (2 ^ 5) with 32 in *. lia.
  - intros ->. reflexivity.
Qed.

Lemma reconnect_delay_is_bounded_witness :
  (Upstream.reached two_clients /\ Upstream.wsClients two_clients <> ∅)
  /\ fst (Upstream.onClose true two_clients) = [Upstream.ScheduleReconnect 2000].
Proof.
  assert (Hr : Upstream.reached two_clients).
  { eexists. unfold two_clients. reflexivity. }
  assert (Hne : Upstream.wsClients two_clients <> ∅).
  { intros H. apply (f_equal size) in H. vm_compute in H. discriminate H. }
  destruct (reconnect_delay_is_bounded true two_clients Hr) as (Hsched & _).
  destruct (Hsched Hne) as (Heff & _).
  split; [now split|]. rewrite Heff. vm_compute. reflexivity.
Defined.

Section Subscriptions.

Implicit Types (u : Upstream.t) (s : string) (subs : gset string).

Lemma upperChar_idempotent (c : ascii) :
  Js.upperChar (Js.upperChar c) = Js.upperChar c.
Proof. destruct c as [[] [] [] [] [] [] [] []]; reflexivity. Qed.

Lemma toUpperCase_idempotent s : Js.toUpperCase (Js.toUpperCase s) = Js.toUpperCase s.
Proof.
  unfold Js.toUpperCase. rewrite list_ascii_of_string_of_list_ascii.
  f_equal. rewrite List.map_map. apply List.map_ext. apply upperChar_idempotent.
Qed.

Lemma elem_of_added (f : string -> string) (l : list string) : forall subs x,
  x ∈ fold_left (fun acc s => {[f s]} ∪ acc) l subs <->
  x ∈ subs \/ exists s, s ∈ l /\ x = f s.
Proof.
  induction l as [|a l IH]; intros subs x; simpl.
  - split; [auto|]. intros [H|(s & Hs & _)]; [exact H | inversion Hs].
  - rewrite IH. split.
    + intros [H|(s & Hs & ->)].
      * apply elem_of_union in H as [H|H]; [|now left].
        apply elem_of_singleton in H. right. exists a. split; [left | exact H].
      * right. exists s. split; [now right | reflexivity].
    + intros [H|(s & Hs & ->)].
      * left. apply elem_of_union. now right.
      * apply elem_of_cons in Hs as [->|Hs];
          [left; apply elem_of_union; left; now apply elem_of_singleton|].
        right. now exists s.
Qed.

Lemma elem_of_removed (f : string -> string) (l : list string) : forall subs x,
  x ∈ fold_left (fun acc s => acc ∖ {[f s]}) l subs <->
  x ∈ subs /\ forall s, s ∈ l -> x <> f s.
Proof.
  induction l as [|a l IH]; intros subs x; simpl.
  - split; [intros H; split; [exact H | intros s Hs; inversion Hs] | tauto].
  - rewrite IH. split.
    + intros [H Hall]. apply elem_of_difference in H as [H Ha]. split; [exact H|].
      intros s Hs. apply elem_of_cons in Hs as [->|Hs]; [set_solver | now apply Hall].
    + intros [H Hall]. split.
      * apply elem_of_difference. split; [exact H|].
        intros Ha. apply elem_of_singleton in Ha. apply (Hall a); [left | exact Ha].
      * intros s Hs. apply Hall. now right.
Qed.

Lemma parseSymbolList_spec s (param : string) :
  In s (Upstream.parseSymbolList param) ->
  s <> EmptyString /\ Js.toUpperCase s = s.
Proof.
  unfold Upstream.parseSymbolList. intros Hin.
  apply List.filter_In in Hin as [Hin Hlen].
  apply List.in_map_iff in Hin as (piece & <- & _). split.
  - intros Hempty. rewrite Hempty in Hlen. discriminate Hlen.
  - apply toUpperCase_idempotent.
Qed.

End Subscriptions.

(** X22.  Subscriptions of a connected client are case-insensitive and take
    effect at once.  The strings of a control frame that count are those
    before the first element of its [symbols] array that is not a string,
    where the [forEach] throws.  After a [subscribe] frame the client is
    sent the frames with symbol [x] exactly when [x] is not empty and
    either was in its set already or is one of those strings upper-cased;
    after an [unsubscribe] frame exactly when [x] is not empty, was in its
    set and is none of those strings upper-cased. *)
Theorem subscription_controls_forwarding
    (ws : nat) (symbols : list (option string)) (subs : gset string)
    (x : string) (u : Upstream.t) :
  Upstream.clientSymbols u !! ws = Some subs ->
  (Server.forwards (Server.Message (Some x))
     (Upstream.clientView true ws
        (snd (Upstream.onClientMessage ws
                (Upstream.Control "subscribe" (Some symbols)) u))) = true
   <-> x <> EmptyString
       /\ (x ∈ subs
           \/ exists s, s ∈ fst (Upstream.readSymbols symbols)
                        /\ x = Js.toUpperCase s))
  /\ (Server.forwards (Server.Message (Some x))
        (Upstream.clientView true ws
           (snd (Upstream.onClientMessage ws
                   (Upstream.Control "unsubscribe" (Some symbols)) u))) = true
      <-> x <> EmptyString
          /\ x ∈ subs
          /\ forall s, s ∈ fst (Upstream.readSymbols symbols) ->
                       x <> Js.toUpperCase s).
Proof.
  intros Hl.
  assert (Hsub : Upstream.clientSymbols
                   (snd (Upstream.onClientMessage ws
                           (Upstream.Control "subscribe" (Some symbols)) u)) !! ws
                 = Some (fold_left (fun acc s => {[Js.toUpperCase s]} ∪ acc)
                           (fst (Upstream.readSymbols symbols)) subs)).
  { unfold Upstream.onClientMessage.
    destruct (Upstream.readSymbols symbols) as [strings threw]. simpl.
    rewrite Hl. simpl. destruct threw; simpl.
    - apply lookup_insert_eq.
    - match goal with
      | |- context [Upstream.connectToBinance ?v] =>
          destruct (connectToBinance_registry v) as (-> & _)
      end.
      simpl. apply lookup_insert_eq. }
  assert (Hunsub : Upstream.clientSymbols
                     (snd (Upstream.onClientMessage ws
                             (Upstream.Control "unsubscribe" (Some symbols)) u)) !! ws
                   = Some (fold_left (fun acc s => acc ∖ {[Js.toUpperCase s]})
                             (fst (Upstream.readSymbols symbols)) subs)).
  { unfold Upstream.onClientMessage.
    destruct (Upstream.readSymbols symbols) as [strings threw]. simpl.
    rewrite Hl. destruct threw; simpl.
    - apply lookup_insert_eq.
    - match goal with
      | |- context [Upstream.connectToBinance ?v] =>
          destruct (connectToBinance_registry v) as (-> & _)
      end.
      simpl. apply lookup_insert_eq. }
  unfold Upstream.clientView. rewrite Hsub, Hunsub.
  unfold Server.forwards. simpl.
  rewrite !andb_true_iff, !truthy_spec, !bool_decide_eq_true.
  rewrite elem_of_added, elem_of_removed. tauto.
Qed.

Lemma subscription_controls_forwarding_witness :
  Upstream.clientSymbols two_clients !! 1%nat = Some {["BTCUSDT"%string]}
  /\ (Server.forwards (Server.Message (Some "SOLUSDT"%string))
        (Upstream.clientView true 1 two_clients) = false
      /\ Server.forwards (Server.Message (Some "SOLUSDT"%string))
           (Upstream.clientView true 1
              (snd (Upstream.onClientMessage 1
                      (Upstream.Control "subscribe" (Some [Some "solusdt"%string]))
                      two_clients))) = true)
  /\ (Server.forwards (Server.Message (Some "BTCUSDT"%string))
        (Upstream.clientView true 1 two_clients) = true
      /\ Server.forwards (Server.Message (Some "BTCUSDT"%string))
           (Upstream.clientView true 1
              (snd (Upstream.onClientMessage 1
                      (Upstream.Control "unsubscribe" (Some [Some "btcusdt"%string]))
                      two_clients))) <> true)
  /\ Server.forwards (Server.Message (Some "SOLUSDT"%string))
       (Upstream.clientView true 1
          (snd (Upstream.onClientMessage 1
                  (Upstream.Control "subscribe"
                     (Some [None; Some "solusdt"%string]))
                  two_clients))) <> true.
Proof.
  assert (Hl : Upstream.clientSymbols two_clients !! 1%nat = Some {["BTCUSDT"%string]})
    by (vm_compute; reflexivity).
  split; [exact Hl|]. split; [|split].
  - split; [vm_compute; reflexivity|].
    apply (proj1 (subscription_controls_forwarding 1 [Some "solusdt"%string]
                    _ "SOLUSDT"%string two_clients Hl)).
    split; [discriminate|]. right. exists "solusdt"%string.
    split; [left | reflexivity].
  - split; [vm_compute; reflexivity|]. intros Hfw.
    apply (proj2 (subscription_controls_forwarding 1 [Some "btcusdt"%string]
                    _ "BTCUSDT"%string two_clients Hl)) in Hfw.
    destruct Hfw as (_ & _ & Hnone).
    apply (Hnone "btcusdt"%string); [left | reflexivity].
  - intros Hfw.
    apply (proj1 (subscription_controls_forwarding 1 [None; Some "solusdt"%string]
                    _ "SOLUSDT"%string two_clients Hl)) in Hfw.
    destruct Hfw as (_ & [Hin|(s & Hs & _)]).
    + apply elem_of_singleton in Hin. discriminate Hin.
    + inversion Hs.
Defined.

(** X23.  The set a client gets from the [symbols] query parameter holds no
    empty symbol and only upper-cased symbols, and right after connecting
    the client is sent exactly the frames whose symbol is in that set. *)
Theorem connecting_client_gets_its_symbols
    (ws : nat) (param : option string) (u : Upstream.t) (s : string) :
  (s ∈ Upstream.parseSymbols param -> s <> EmptyString /\ Js.toUpperCase s = s)
  /\ Upstream.clientSymbols (snd (Upstream.onConnection ws param u)) !! ws
     = Some (Upstream.parseSymbols param)
  /\ (Server.forwards (Server.Message (Some s))
        (Upstream.clientView true ws (snd (Upstream.onConnection ws param u))) = true
      <-> s ∈ Upstream.parseSymbols param).
Proof.
  assert (Hparse : s ∈ Upstream.parseSymbols param ->
                   s <> EmptyString /\ Js.toUpperCase s = s).
  { unfold Upstream.parseSymbols. intros Hin.
    apply elem_of_list_to_set, list_elem_of_In in Hin.
    now apply parseSymbolList_spec in Hin. }
  assert (Hreg : Upstream.clientSymbols (snd (Upstream.onConnection ws param u)) !! ws
                 = Some (Upstream.parseSymbols param)).
  { unfold Upstream.onConnection.
    match goal with
    | |- context [Upstream.connectToBinance ?v] =>
        destruct (connectToBinance_registry v) as (Hreg & _);
        destruct (Upstream.connectToBinance v) as [effects u2]
    end.
    simpl in *. rewrite Hreg. apply lookup_insert_eq. }
  split; [exact Hparse|]. split; [exact Hreg|].
  unfold Server.forwards, Upstream.clientView. simpl. rewrite Hreg.
  rewrite andb_true_iff, truthy_spec, bool_decide_eq_true. split; [tauto|].
  intros Hin. split; [now apply Hparse | exact Hin].
Qed.

Lemma connecting_client_gets_its_symbols_witness :
  Upstream.parseSymbolList " btcusdt ,,ethusdt" = ["BTCUSDT"; "ETHUSDT"]%string
  /\ Upstream.clientSymbols
       (snd (Upstream.onConnection 3 (Some " btcusdt ,,ethusdt"%string) two_clients)) !! 3%nat
     = Some (Upstream.parseSymbols (Some " btcusdt ,,ethusdt"%string)).
Proof.
  split; [reflexivity|].
  exact (proj1 (proj2 (connecting_client_gets_its_symbols 3
                         (Some " btcusdt ,,ethusdt"%string) two_clients
                         "BTCUSDT"%string))).
Defined.

(* ===================================================================== *)
(** ** The snapshot scheduler and the last-good cache                    *)
(* ===================================================================== *)

Section SchedulerFacts.

Variables (localNow : Z) (engines : gmap string Engine.t).


End SchedulerFacts.



Lemma valid_book_is_good (e : t) :
  Hook.bookIsValid e = true ->
  Scheduler.goodBook (fst (Hook.getBook 20 e)) (snd (Hook.getBook 20 e)).
Proof.
  unfold Hook.bookIsValid, Scheduler.goodBook.
  destruct (Hook.getBook 20 e) as [bs az]. simpl.
  rewrite !andb_true_iff. intros ((((((_ & _) & Hb) & Ha) & _) & _) & Hlt).
  split; [|split; [|exact Hlt]].
  - intros ->. discriminate Hb.
  - intros ->. discriminate Ha.
Qed.

Lemma cacheSplit_valid (e : t) (obi deepObi : Js.number) (localNow : Z)
    (lg : Scheduler.LastGood) :
  Hook.bookIsValid e = true ->
  Scheduler.cacheSplit e obi deepObi localNow lg
  = (Scheduler.mkLastGood (fst (Hook.getBook 20 e)) (snd (Hook.getBook 20 e))
       obi deepObi localNow,
     Scheduler.mkShown (fst (Hook.getBook 20 e)) (snd (Hook.getBook 20 e))
       obi deepObi).
Proof.
  intros Hv. unfold Scheduler.cacheSplit.
  destruct (Hook.getBook 20 e) as [bs az]. now rewrite Hv.
Qed.

Lemma cacheSplit_invalid (e : t) (obi deepObi : Js.number) (localNow : Z)
    (lg : Scheduler.LastGood) :
  Hook.bookIsValid e = false ->
  Scheduler.cacheSplit e obi deepObi localNow lg
  = (lg,
     if Nat.ltb 0 (length (Scheduler.lastGoodBids lg))
        && Nat.ltb 0 (length (Scheduler.lastGoodAsks lg))
     then Scheduler.mkShown (Scheduler.lastGoodBids lg) (Scheduler.lastGoodAsks lg)
            (Scheduler.lastGoodObiWeighted lg) (Scheduler.lastGoodObiSpoof lg)
     else Scheduler.mkShown (fst (Hook.getBook 20 e)) (snd (Hook.getBook 20 e))
            obi deepObi).
Proof.
  intros Hv. unfold Scheduler.cacheSplit.
  destruct (Hook.getBook 20 e) as [bs az]. rewrite Hv. simpl.
  now destruct (Nat.ltb 0 _ && Nat.ltb 0 _).
Qed.

Lemma nonempty_length {A} (l : list A) : Nat.ltb 0 (length l) = true <-> l <> [].
Proof.
  destruct l as [|x l]; simpl; split; try discriminate; try reflexivity.
  intros H. now contradiction H.
Qed.

(** X25.  The last-good cache starts empty and from then on is either
    empty or holds a complete, uncrossed book.  When the validity gate is
    open, the current book and its two imbalance figures are stored in the
    cache, stamped with the time of the tick, and are what the tick shows.
    When it is closed the cache is left as it is, and the tick shows the
    cached book and figures if both cached sides are non-empty, the
    current ones otherwise.  So a valid book followed by an invalid one
    is still shown, with its own figures, at the second tick; and once a
    valid book has been seen (now or earlier), what the tick shows is a
    complete, uncrossed book. *)
Theorem last_good_book_is_shown
    (e : t) (obi deepObi : Js.number) (localNow : Z) (lg : Scheduler.LastGood) :
  cacheConsistent lg ->
  cacheConsistent Scheduler.noLastGood
  /\ cacheConsistent (fst (Scheduler.cacheSplit e obi deepObi localNow lg))
  /\ (Hook.bookIsValid e = true ->
      Scheduler.cacheSplit e obi deepObi localNow lg
      = (Scheduler.mkLastGood (fst (Hook.getBook 20 e)) (snd (Hook.getBook 20 e))
           obi deepObi localNow,
         Scheduler.mkShown (fst (Hook.getBook 20 e)) (snd (Hook.getBook 20 e))
           obi deepObi))
  /\ (Hook.bookIsValid e = false ->
      fst (Scheduler.cacheSplit e obi deepObi localNow lg) = lg)
  /\ (Hook.bookIsValid e = false ->
      Scheduler.lastGoodBids lg <> [] -> Scheduler.lastGoodAsks lg <> [] ->
      snd (Scheduler.cacheSplit e obi deepObi localNow lg)
      = Scheduler.mkShown (Scheduler.lastGoodBids lg) (Scheduler.lastGoodAsks lg)
          (Scheduler.lastGoodObiWeighted lg) (Scheduler.lastGoodObiSpoof lg))
  /\ (Hook.bookIsValid e = false ->
      Scheduler.lastGoodBids lg = [] \/ Scheduler.lastGoodAsks lg = [] ->
      snd (Scheduler.cacheSplit e obi deepObi localNow lg)
      = Scheduler.mkShown (fst (Hook.getBook 20 e)) (snd (Hook.getBook 20 e))
          obi deepObi)
  /\ (forall (e2 : t) (obi2 deepObi2 : Js.number) (localNow2 : Z),
        Hook.bookIsValid e = true -> Hook.bookIsValid e2 = false ->
        Scheduler.cacheSplit e2 obi2 deepObi2 localNow2
          (fst (Scheduler.cacheSplit e obi deepObi localNow lg))
        = (Scheduler.mkLastGood (fst (Hook.getBook 20 e)) (snd (Hook.getBook 20 e))
             obi deepObi localNow,
           Scheduler.mkShown (fst (Hook.getBook 20 e)) (snd (Hook.getBook 20 e))
             obi deepObi))
  /\ (Hook.bookIsValid e = true
      \/ Scheduler.goodBook (Scheduler.lastGoodBids lg) (Scheduler.lastGoodAsks lg) ->
      Scheduler.goodBook
        (Scheduler.finalBids (snd (Scheduler.cacheSplit e obi deepObi localNow lg)))
        (Scheduler.finalAsks (snd (Scheduler.cacheSplit e obi deepObi localNow lg)))).
Proof.
  intros Hlg. split; [left; now split|].
  pose proof (valid_book_is_good e) as Hvalid.
  pose proof (cacheSplit_valid e obi deepObi localNow lg) as Hopen.
  pose proof (cacheSplit_invalid e obi deepObi localNow lg) as Hclosed.
  destruct (Hook.bookIsValid e) eqn:Hv.
  - specialize (Hvalid eq_refl). specialize (Hopen eq_refl). clear Hclosed.
    rewrite Hopen. simpl.
    split; [now right|]. split; [reflexivity|].
    split; [discriminate|]. split; [discriminate|]. split; [discriminate|].
    split; [|intros _; exact Hvalid].
    intros e2 obi2 deepObi2 localNow2 _ Hv2.
    rewrite (cacheSplit_invalid e2 obi2 deepObi2 localNow2 _ Hv2). simpl.
    destruct Hvalid as (Hb & Ha & _).
    apply nonempty_length in Hb, Ha. simpl in Hb, Ha. now rewrite Hb, Ha.
  - specialize (Hclosed eq_refl). clear Hopen Hvalid.
    rewrite Hclosed. simpl.
    split; [exact Hlg|]. split; [discriminate|]. split; [reflexivity|].
    split; [|split; [|split]].
    + intros _ Hb Ha. apply nonempty_length in Hb, Ha. now rewrite Hb, Ha.
    + intros _ [Hb|Ha].
      * now rewrite Hb.
      * rewrite Ha, andb_false_r. reflexivity.
    + discriminate.
    + intros [H|(Hb & Ha & Hlt)]; [discriminate|].
      apply nonempty_length in Hb as Hb', Ha as Ha'. rewrite Hb', Ha'. simpl.
      now repeat split.
Qed.

Lemma last_good_book_is_shown_witness :
  cacheConsistent Scheduler.noLastGood
  /\ Hook.bookIsValid unsorted_book = true
  /\ Hook.bookIsValid first_fetch_pending = false
  /\ Scheduler.lastGoodBids
       (fst (Scheduler.cacheSplit unsorted_book (Js.Num 3) (Js.Num 4) 7
               Scheduler.noLastGood))
     = fst (Hook.getBook 20 unsorted_book)
  /\ Scheduler.lastGoodAt
       (fst (Scheduler.cacheSplit unsorted_book (Js.Num 3) (Js.Num 4) 7
               Scheduler.noLastGood)) = 7
  /\ snd (Scheduler.cacheSplit first_fetch_pending (Js.Num 0) (Js.Num 0) 8
            (fst (Scheduler.cacheSplit unsorted_book (Js.Num 3) (Js.Num 4) 7
                    Scheduler.noLastGood)))
     = Scheduler.mkShown (fst (Hook.getBook 20 unsorted_book))
         (snd (Hook.getBook 20 unsorted_book)) (Js.Num 3) (Js.Num 4)
  /\ snd (Scheduler.cacheSplit first_fetch_pending (Js.Num 0) (Js.Num 0) 8
            Scheduler.noLastGood)
     = Scheduler.mkShown [] [] (Js.Num 0) (Js.Num 0).
Proof.
  assert (Hinit : cacheConsistent Scheduler.noLastGood) by (left; now split).
  assert (Hv : Hook.bookIsValid unsorted_book = true) by reflexivity.
  assert (Hv2 : Hook.bookIsValid first_fetch_pending = false) by reflexivity.
  destruct (last_good_book_is_shown unsorted_book (Js.Num 3) (Js.Num 4) 7
              Scheduler.noLastGood Hinit)
    as (_ & _ & Hstore & _ & _ & _ & Hnext & _).
  destruct (last_good_book_is_shown first_fetch_pending (Js.Num 0) (Js.Num 0) 8
              Scheduler.noLastGood Hinit)
    as (_ & _ & _ & _ & _ & Hempty & _).
  split; [exact Hinit|]. split; [exact Hv|]. split; [exact Hv2|].
  split; [now rewrite (Hstore Hv)|]. split; [now rewrite (Hstore Hv)|].
  split; [now rewrite (Hnext first_fetch_pending (Js.Num 0) (Js.Num 0) 8 Hv Hv2)|].
  rewrite (Hempty Hv2 (or_introl eq_refl)). reflexivity.
Defined.

(* ===================================================================== *)
(** ** Replay and live processing agree                                  *)
(* ===================================================================== *)

Lemma set_buffer_same (s : t) : buffer s = [] -> set_buffer [] s = s.
Proof. destruct s; simpl; now intros ->. Qed.

(** X26.  Replaying a chain of diffs and receiving the same diffs live
    lead to the same engine: for a synced engine with an empty buffer and
    no snapshot in flight, and diffs each continuing from the one before,
    feeding them one by one to [processEvent] gives exactly the state the
    replay loop gives, and the replay succeeds. *)
Theorem replay_agrees_with_live_processing (evs : list DepthEvent) : forall s : t,
  isSynced s = true -> resyncInFlight s = false -> buffer s = [] ->
  chained (lastUpdateId s) evs ->
  fst (replayLoop evs s) = true
  /\ fold_left (fun st e => processEvent e st) evs s = snd (replayLoop evs s).
Proof.
  induction evs as [|e rest IH]; intros s Hs Hf Hb Hchain; simpl.
  - split; [reflexivity|]. symmetry. now apply set_buffer_same.
  - destruct Hchain as (HU & Hu & Hrest).
    rewrite (processEvent_steady s e Hs Hf).
    assert (H1 : (ev_u e <=? lastUpdateId s) = false) by (apply Z.leb_gt; lia).
    assert (H2 : (lastUpdateId s + 1 <? ev_U e) = false) by (apply Z.ltb_ge; lia).
    assert (H3 : (lastUpdateId s <? ev_u e) = true) by (apply Z.ltb_lt; lia).
    rewrite H1, H2, H3, (set_buffer_same s Hb).
    apply IH; simpl; assumption.
Qed.

Lemma replay_agrees_with_live_processing_witness :
  (isSynced synced100 = true /\ resyncInFlight synced100 = false
   /\ buffer synced100 = []
   /\ chained (lastUpdateId synced100) [diff101; mkEvent 102 105 [] []])
  /\ processEvent (mkEvent 102 105 [] []) (processEvent diff101 synced100)
     = snd (replayLoop [diff101; mkEvent 102 105 [] []] synced100).
Proof.
  assert (Hc : chained (lastUpdateId synced100) [diff101; mkEvent 102 105 [] []])
    by (simpl; lia).
  split; [now repeat split|].
  exact (proj2 (replay_agrees_with_live_processing _ synced100
                  eq_refl eq_refl eq_refl Hc)).
Defined.
